(** * lunarcalc: parallax triangulation over a Vincenty geodesic baseline

    A shallow embedding of [Parallax_calc.js].  The program is written once,
    over an interface [JSNumber] of the JavaScript Number operations it uses,
    and read in two ways:

    - [IEEE]: binary64 numbers (Rocq's primitive floats, whose arithmetic,
      comparisons, [abs] and [sqrt] are those of IEEE 754 and therefore of
      ECMAScript), with the transcendental functions of [Math], which
      ECMAScript leaves implementation-approximated, supplied by a
      [MathLib];
    - [Exact]: real numbers extended with one undefined value, the
      arithmetic the formulas are meant to approximate.  *)

From Stdlib Require Import Reals Lra.
From Stdlib Require Import ZArith Floats String Ascii List Bool Lia.
Import ListNotations.

Set Warnings "-inexact-float".

(** ** The Number interface *)

Declare Scope js_scope.
Delimit Scope js_scope with js.

Class JSNumber (num : Type) : Type := {
  (** the decimal literal [m]e[e], e.g. [lit 63567523142 (-4)] for 6356752.3142 *)
  lit : Z -> Z -> num;
  NaN : num;
  add : num -> num -> num;
  sub : num -> num -> num;
  mul : num -> num -> num;
  div : num -> num -> num;
  (** [a ** b] *)
  pow : num -> num -> num;
  (** [a < b], [a > b], [a === b] *)
  lt : num -> num -> bool;
  gt : num -> num -> bool;
  strict_eq : num -> num -> bool;
  isNaN : num -> bool;
  Math_PI : num;
  Math_abs : num -> num;
  Math_sqrt : num -> num;
  Math_sin : num -> num;
  Math_cos : num -> num;
  Math_tan : num -> num;
  Math_atan : num -> num;
  Math_atan2 : num -> num -> num;
  (** [x.toFixed(d)] and the conversion ToNumber of a string *)
  toFixed : num -> Z -> string;
  StringToNumber : string -> num
}.

Infix "+" := add : js_scope.
Infix "-" := sub : js_scope.
Infix "*" := mul : js_scope.
Infix "/" := div : js_scope.
Infix "**" := pow (at level 30, right associativity) : js_scope.
Infix "<" := lt : js_scope.
Infix ">" := gt : js_scope.
Infix "===" := strict_eq (at level 70, no associativity) : js_scope.
Notation "# n" := (lit n%Z 0%Z) (at level 1, n at level 0, format "# n") : js_scope.

(** A JavaScript value as this program produces them: [distVincenty] returns
    a Number on two paths and the String built by [toFixed] on the third. *)
Inductive value (num : Type) : Type :=
| VNumber (x : num)
| VString (s : string).
Arguments VNumber {num} x.
Arguments VString {num} s.

(** ** The program *)

Section Program.
Context {num : Type} `{JSNumber num}.
Open Scope js_scope.

(** ToNumber, applied by [/] to its left operand. *)
Definition ToNumber (v : value num) : num :=
  match v with
  | VNumber x => x
  | VString s => StringToNumber s
  end.

Definition toRad (Value : num) : num := Value * Math_PI / #180.

(** WGS-84 ellipsoid parameters. *)
Definition a : num := #6378137.
Definition b : num := lit 63567523142 (-4).
Definition f : num := #1 / lit 298257223563 (-9).

(** [x = Math.atan(1 - f)], [U = x * Math.tan(toRad(lat))]. *)
Definition x : num := Math_atan (#1 - f).
Definition U (lat : num) : num := x * Math_tan (toRad lat).

(** The variables a pass through the loop body assigns. *)
Record vars : Type := {
  lambda : num;
  sinSigma : num;
  cosSigma : num;
  sigma : num;
  sinAlpha : num;
  cosSqAlpha : num;
  cos2SigmaM : num
}.

Section Loop.
Variables (L sinU1 cosU1 sinU2 cosU2 : num).

(** One pass through the body of the do-while, from the current [lambda];
    [None] is the early [return 0] for co-incident points. *)
Definition body (lambda : num) : option vars :=
  let sinLambda := Math_sin lambda in
  let cosLambda := Math_cos lambda in
  let sinSigma :=
    Math_sqrt ((cosU2 * sinLambda) * (cosU2 * sinLambda)
               + (cosU1 * sinU2 - sinU1 * cosU2 * cosLambda)
                 * (cosU1 * sinU2 - sinU1 * cosU2 * cosLambda)) in
  if #0 === sinSigma then None
  else
    let cosSigma := sinU1 * sinU2 + cosU1 * cosU2 * cosLambda in
    let sigma := Math_atan2 sinSigma cosSigma in
    let sinAlpha := cosU1 * cosU2 * sinLambda / sinSigma in
    let cosSqAlpha := #1 - sinAlpha * sinAlpha in
    let cos2SigmaM := cosSigma - #2 * sinU1 * sinU2 / cosSqAlpha in
    let C := f / #16 * cosSqAlpha * (#4 + f * (#4 - #3 * cosSqAlpha)) in
    let cos2SigmaM := if isNaN cos2SigmaM then #0 else cos2SigmaM in
    let lambda' :=
      L + (#1 - C) * f * sinAlpha
          * (sigma + C * sinSigma
                     * (cos2SigmaM + C * cosSigma
                                     * (#(-1) + #2 * cos2SigmaM * cos2SigmaM))) in
    Some {| lambda := lambda'; sinSigma := sinSigma; cosSigma := cosSigma;
            sigma := sigma; sinAlpha := sinAlpha; cosSqAlpha := cosSqAlpha;
            cos2SigmaM := cos2SigmaM |}.

(** How the do-while ends: by the early return, or by leaving the loop
    with the variables of the last pass and the value of [iterLimit]. *)
Inductive loop_end : Type :=
| Coincident
| Left (v : vars) (iterLimit : nat).

(** [do { body } while (Math.abs(lambda - lambdaP) > 1e-12 && --iterLimit > 0)].
    [iterLimit] is a counter that starts at 100 and is only decremented,
    by one and while positive: a natural number, on which the loop
    recurses. *)
Fixpoint do_while (iterLimit : nat) (lambda0 : num) : loop_end :=
  match body lambda0 with
  | None => Coincident
  | Some v =>
    let lambdaP := lambda0 in
    if Math_abs (v.(lambda) - lambdaP) > lit 1 (-12) then
      match iterLimit with
      | S (S _ as iterLimit') => do_while iterLimit' v.(lambda)
      | _ => Left v (Nat.pred iterLimit)
      end
    else Left v iterLimit
  end.
End Loop.

(** The statements after the loop, on the variables its last pass left. *)
Definition distance (v : vars) : num :=
  let sinSigma := v.(sinSigma) in
  let cosSigma := v.(cosSigma) in
  let sigma := v.(sigma) in
  let cosSqAlpha := v.(cosSqAlpha) in
  let cos2SigmaM := v.(cos2SigmaM) in
  let uSq := cosSqAlpha * (a * a - b * b) / (b * b) in
  let A := #1 + uSq / #16384
                * (#4096 + uSq * (#(-768) + uSq * (#320 - #175 * uSq))) in
  let B := uSq / #1024 * (#256 + uSq * (#(-128) + uSq * (#74 - #47 * uSq))) in
  let deltaSigma :=
    B * sinSigma
    * (cos2SigmaM
       + B / #4
         * (cosSigma * (#(-1) + #2 * cos2SigmaM * cos2SigmaM)
            - B / #6 * cos2SigmaM * (#(-3) + #4 * sinSigma * sinSigma)
              * (#(-3) + #4 * cos2SigmaM * cos2SigmaM))) in
  let s := b * A * (sigma - deltaSigma) in
  s.

Definition distVincenty (lat1 lon1 lat2 lon2 : num) : value num :=
  let L := toRad (lon2 - lon1) in
  let U1 := U lat1 in
  let U2 := U lat2 in
  let sinU1 := Math_sin U1 in
  let cosU1 := Math_cos U1 in
  let sinU2 := Math_sin U2 in
  let cosU2 := Math_cos U2 in
  let lambda := L in
  let iterLimit := 100%nat in
  match do_while L sinU1 cosU1 sinU2 cosU2 iterLimit lambda with
  | Coincident => VNumber #0
  | Left _ O => VNumber NaN
  | Left v _ => VString (toFixed (distance v) 3)
  end.

Definition distTunnel (arc_length : num) : num :=
  let r := lit 63567523142 (-7) in
  let theta := arc_length / r in
  let distance_tunnel :=
    Math_sqrt (r ** #2 + r ** #2 - (#2 * r * r * Math_cos theta)) in
  distance_tunnel.

Definition parallaxAngle (ra1 dec1 ra2 dec2 : num) : num :=
  let deltaRa := ra2 - ra1 in
  let deltaRa := if deltaRa < #0 then deltaRa * #(-1) else deltaRa in
  let deltaDec := dec1 - dec2 in
  let deltaDec := if deltaDec < #0 then deltaDec * #(-1) else deltaDec in
  let parallaxtheta := Math_sqrt (deltaRa ** #2 + deltaDec ** #2) in
  parallaxtheta.

Definition e_to_m_distance (att1 att2 parallaxtheta distance_tunnel : num)
  : list num :=
  let ANB := #360 - (#360 - att1 - att2 - parallaxtheta) in
  let AOB := #360 - (ANB + #90 + #90) in
  let OAB := (#180 - AOB) / #2 in
  let OBA := OAB in
  let NAB := #90 - OAB in
  let NBA := #90 - OBA in
  let MAB := NAB + att1 in
  let MBA := NBA + att2 in
  let MABrad := toRad MAB in
  let MBArad := toRad MBA in
  let parallaxtheta_rad := toRad parallaxtheta in
  let a_to_m_length :=
    distance_tunnel * (Math_sin MBArad / Math_sin parallaxtheta_rad) in
  let b_to_m_length :=
    distance_tunnel * (Math_sin MABrad / Math_sin parallaxtheta_rad) in
  [a_to_m_length; b_to_m_length].

Definition distances_to_moon
           (lat1 long1 ra1 dec1 alt1 lat2 long2 ra2 dec2 alt2 : num)
  : list num :=
  let arcdistance := ToNumber (distVincenty lat1 long1 lat2 long2) / #1000 in
  let distance_tunnel := distTunnel arcdistance in
  let parallaxtheta := parallaxAngle ra1 dec1 ra2 dec2 in
  let lengths_to_moon := e_to_m_distance alt1 alt2 parallaxtheta distance_tunnel in
  lengths_to_moon.
End Program.

(** ** Binary64 numbers *)

Module IEEE.

(** *** Decimal text to and from binary64

    Exact integer arithmetic on the mantissa and exponent that
    [Prim2SF] exposes; rounding is [SpecFloat]'s round-to-nearest-even. *)

(** The Number nearest to [m * 10^e]. *)
Definition of_decimal (m e : Z) : float :=
  match m with
  | Z0 => PrimFloat.zero
  | _ =>
    if (0 <=? e)%Z
    then SF2Prim (binary_normalize prec emax (m * 10 ^ e) 0 false)
    else
      let '(q, e', l) :=
        SFdiv_core_binary prec emax (Z.abs m) 0 (10 ^ (- e)) 0 in
      SF2Prim (binary_round_aux prec emax (m <? 0)%Z q e' l)
  end.

(** The magnitude of a finite Number as [m * 2^e]. *)
Definition magnitude (x : float) : Z * Z :=
  match Prim2SF x with
  | S754_finite _ m e => (Zpos m, e)
  | _ => (0%Z, 0%Z)
  end.

Definition digit_char (d : Z) : ascii :=
  ascii_of_nat (48 + Z.to_nat d).

(** The decimal digits of [n >= 0], most significant first; [fuel] bounds
    their number. *)
Fixpoint digits_of (fuel : nat) (n : Z) (acc : string) : string :=
  match fuel with
  | O => acc
  | S fuel' =>
    let acc' := String (digit_char (n mod 10)) acc in
    if (n <? 10)%Z then acc' else digits_of fuel' (n / 10) acc'
  end.

Definition decimal (n : Z) : string :=
  digits_of (S (Z.to_nat (Z.log2 n))) n EmptyString.

Fixpoint zeros (k : nat) : string :=
  match k with
  | O => EmptyString
  | S k' => String "0" (zeros k')
  end.

Fixpoint strip_zeros_rev (s : list ascii) : list ascii :=
  match s with
  | "0"%char :: s' => strip_zeros_rev s'
  | _ => s
  end.

(** Number::toString for an integral value [X >= 10^21] that is the exact
    value of the Number [x]: the shortest digit string that reads back as
    [x], in exponential form. *)
Fixpoint shortest (x : float) (X : Z) (n : Z) (k : nat) (tries : nat)
  : Z * Z :=
  match tries with
  | O => (X, n)
  | S tries' =>
    let p := (10 ^ (n - Z.of_nat k))%Z in
    let lo := (X / p)%Z in
    let near := if (p <=? 2 * (X mod p))%Z then (lo + 1)%Z else lo in
    let far := if (p <=? 2 * (X mod p))%Z then lo else (lo + 1)%Z in
    if (of_decimal near (n - Z.of_nat k) =? x)%float
    then (near, (n - Z.of_nat k)%Z)
    else if (of_decimal far (n - Z.of_nat k) =? x)%float
         then (far, (n - Z.of_nat k)%Z)
         else shortest x X n (S k) tries'
  end.

Definition exponential (x : float) (X : Z) : string :=
  let n := Z.of_nat (String.length (decimal X)) in
  let '(s, e) := shortest x X n 1 17 in
  let ds := list_ascii_of_string (decimal s) in
  let n' := (Z.of_nat (List.length ds) + e)%Z in
  match rev (strip_zeros_rev (rev ds)) with
  | [] => "0"%string
  | d :: nil => String d ("e+" ++ decimal (n' - 1))
  | d :: rest =>
    String d ("." ++ string_of_list_ascii rest ++ "e+" ++ decimal (n' - 1))
  end.

(** Number.prototype.toFixed, for [0 <= fd <= 100]. *)
Definition to_fixed (x : float) (fd : Z) : string :=
  if is_nan x then "NaN"%string
  else if is_infinity x
       then (if (x <? 0)%float then "-Infinity" else "Infinity")%string
       else
         let sign := (if (x <? 0)%float then "-" else "")%string in
         let '(m, e) := magnitude x in
         if (1e21 <=? abs x)%float
         then (sign ++ exponential (abs x) (m * 2 ^ e))%string
         else
           (* n / 10^fd nearest to m * 2^e, the larger n on a tie *)
           let n :=
             if (0 <=? e)%Z then (m * 2 ^ e * 10 ^ fd)%Z
             else ((2 * m * 10 ^ fd + 2 ^ (- e)) / 2 ^ (1 - e))%Z in
           let ds := decimal n in
           let k := String.length ds in
           let ds := (zeros (Z.to_nat fd + 1 - k) ++ ds)%string in
           let k := String.length ds in
           if (fd =? 0)%Z then (sign ++ ds)%string
           else
             (sign ++ substring 0 (k - Z.to_nat fd) ds ++ "."
                   ++ substring (k - Z.to_nat fd) (Z.to_nat fd) ds)%string.

(** StringToNumber: white space, an optional sign, then [Infinity], a
    decimal literal with optional fraction and exponent, or an unsigned
    hexadecimal, octal or binary integer; anything else is [NaN]. *)
Definition is_space (c : ascii) : bool :=
  let n := nat_of_ascii c in
  ((9 <=? n) && (n <=? 13) || (n =? 32))%nat.

Fixpoint trim_left (s : list ascii) : list ascii :=
  match s with
  | c :: s' => if is_space c then trim_left s' else s
  | [] => []
  end.

Definition trim (s : list ascii) : list ascii :=
  rev (trim_left (rev (trim_left s))).

Definition digit_value (radix : Z) (c : ascii) : option Z :=
  let n := Z.of_nat (nat_of_ascii c) in
  let d :=
    if ((48 <=? n) && (n <=? 57))%Z then (n - 48)%Z
    else if ((97 <=? n) && (n <=? 102))%Z then (n - 87)%Z
         else if ((65 <=? n) && (n <=? 70))%Z then (n - 55)%Z
              else 99%Z in
  if (d <? radix)%Z then Some d else None.

(** The longest prefix of digits: its value, its length, and the rest. *)
Fixpoint read_digits (radix : Z) (s : list ascii) (acc : Z) (len : nat)
  : Z * nat * list ascii :=
  match s with
  | c :: s' =>
    match digit_value radix c with
    | Some d => read_digits radix s' (acc * radix + d)%Z (S len)
    | None => (acc, len, s)
    end
  | [] => (acc, len, [])
  end.

Definition read_exponent (s : list ascii) : option Z :=
  match s with
  | [] => Some 0%Z
  | c :: s' =>
    if (Ascii.eqb c "e" || Ascii.eqb c "E")%bool then
      let '(neg, s'') :=
        match s' with
        | "-"%char :: t => (true, t)
        | "+"%char :: t => (false, t)
        | _ => (false, s')
        end in
      match read_digits 10 s'' 0 0 with
      | (_, O, _) => None
      | (v, _, []) => Some (if neg then (- v)%Z else v)
      | _ => None
      end
    else None
  end.

Definition read_decimal (s : list ascii) : option (Z * Z) :=
  let '(int_part, ilen, s1) := read_digits 10 s 0 0 in
  let '(mant, flen, s2) :=
    match s1 with
    | "."%char :: t =>
      let '(v, len, rest) := read_digits 10 t int_part 0 in (v, len, rest)
    | _ => (int_part, O, s1)
    end in
  match (ilen + flen)%nat with
  | O => None
  | _ =>
    match read_exponent s2 with
    | Some e => Some (mant, (e - Z.of_nat flen)%Z)
    | None => None
    end
  end.

Definition read_radix (radix : Z) (s : list ascii) : float :=
  match read_digits radix s 0 0 with
  | (_, O, _) => nan
  | (v, _, []) => of_decimal v 0
  | _ => nan
  end.

Definition string_to_number (str : string) : float :=
  match trim (list_ascii_of_string str) with
  | [] => PrimFloat.zero
  | "0"%char :: "x"%char :: t | "0"%char :: "X"%char :: t => read_radix 16 t
  | "0"%char :: "o"%char :: t | "0"%char :: "O"%char :: t => read_radix 8 t
  | "0"%char :: "b"%char :: t | "0"%char :: "B"%char :: t => read_radix 2 t
  | s =>
    let '(neg, t) :=
      match s with
      | "-"%char :: t => (true, t)
      | "+"%char :: t => (false, t)
      | _ => (false, s)
      end in
    let v :=
      if String.eqb (string_of_list_ascii t) "Infinity" then infinity
      else match read_decimal t with
           | Some (m, e) => of_decimal m e
           | None => nan
           end in
    if neg then (- v)%float else v
  end.

(** *** The Math library

    ECMAScript fixes these functions only up to an
    implementation-approximated result, so the embedding takes them from
    the engine.  [m_pow] is Number::exponentiate, the meaning of [**]. *)
Record MathLib : Type := {
  m_sin : float -> float;
  m_cos : float -> float;
  m_tan : float -> float;
  m_atan : float -> float;
  m_atan2 : float -> float -> float;
  m_pow : float -> float -> float
}.

(** Math.PI, the Number nearest to the ratio of a circle's circumference
    to its diameter. *)
Definition PI : float := 0x1.921fb54442d18p+1%float.

Definition number (M : MathLib) : JSNumber float := {|
  lit := of_decimal;
  NaN := nan;
  add := PrimFloat.add;
  sub := PrimFloat.sub;
  mul := PrimFloat.mul;
  div := PrimFloat.div;
  pow := m_pow M;
  lt := PrimFloat.ltb;
  gt := fun u v => PrimFloat.ltb v u;
  strict_eq := PrimFloat.eqb;
  isNaN := is_nan;
  Math_PI := PI;
  Math_abs := abs;
  Math_sqrt := sqrt;
  Math_sin := m_sin M;
  Math_cos := m_cos M;
  Math_tan := m_tan M;
  Math_atan := m_atan M;
  Math_atan2 := m_atan2 M;
  toFixed := to_fixed;
  StringToNumber := string_to_number
|}.

End IEEE.

(** ** A reference Math library

    An engine's [Math] for the instances and the evaluations below.
    [sin], [cos] and [tan] are computed on integers in fixed point, far
    beyond binary64 precision, and rounded once to the nearest Number;
    [atan] and [atan2] are those of fdlibm, operation by operation, whose
    result can be the other neighbour of the true value; [pow] is exact
    for the integral exponents the program uses. *)

Module RefMath.
Import IEEE.
Local Open Scope Z_scope.

(** Fraction bits of the series, and of the constant that reduces an
    argument of any binary64 magnitude modulo pi/2. *)
Definition F : Z := 192.
Definition K : Z := 1280.

Definition rnd (v e : Z) : float :=
  SF2Prim (binary_normalize prec emax v e false).

(** [sum_{k} (-1)^k / ((2k+1) n^(2k+1))], scaled; [term] is the last
    [1/n^(2k-1)] and [acc] the sum so far. *)
Fixpoint atan_inv_series (fuel : nat) (n2 term k : Z) (sign : bool)
         (acc : Z) : Z :=
  match fuel with
  | O => acc
  | S fuel' =>
    let term' := term / n2 in
    if term' =? 0 then acc
    else
      let t := term' / (2 * k + 1) in
      atan_inv_series fuel' n2 term' (k + 1) (negb sign)
                      (if sign then acc - t else acc + t)
  end.

Definition atan_inv (n bits : Z) : Z :=
  let term := 2 ^ bits / n in
  atan_inv_series 400 (n * n) term 1 true term.

(** Machin: pi = 16 atan(1/5) - 4 atan(1/239). *)
Definition PI_K : Z :=
  Eval vm_compute in
    Z.shiftr (16 * atan_inv 5 (K + 32) - 4 * atan_inv 239 (K + 32)) 32.

(** The alternating series of sine ([o = 1], from [term = r]) and cosine
    ([o = 0], from [term = 1]) in [r2 = r^2]. *)
Fixpoint trig_series (fuel : nat) (o r2 term k : Z) (sign : bool) (acc : Z)
  : Z :=
  match fuel with
  | O => acc
  | S fuel' =>
    let term' :=
      Z.shiftr (term * r2) F / ((2 * k - 1 + o) * (2 * k + o)) in
    if term' =? 0 then acc
    else trig_series fuel' o r2 term' (k + 1) (negb sign)
                     (if sign then acc - term' else acc + term')
  end.

Definition sin_fix (r : Z) : Z :=
  trig_series 100 1 (Z.shiftr (r * r) F) r 1 true r.
Definition cos_fix (r : Z) : Z :=
  trig_series 100 0 (Z.shiftr (r * r) F) (2 ^ F) 1 true (2 ^ F).

(** [|x| = q * pi/2 + r]: the quadrant [q mod 4] and [r] in fixed point.
    The division is carried out with [k] fraction bits, 64 more than the
    result keeps and as many more as [|x|] has integer bits. *)
Definition reduce (x : float) : Z * Z :=
  let '(m, e) := magnitude x in
  let k := F + 64 + Z.max 0 (e + 53) in
  let N := m * 2 ^ (e + k) in
  let pih := Z.shiftr PI_K (K - k + 1) in
  ((N / pih) mod 4, Z.shiftr (N mod pih) (k - F)).

Definition negative (x : float) : bool := (x <? 0)%float.
Definition signed (neg : bool) (v : Z) : Z := if neg then - v else v.

Definition sin (x : float) : float :=
  if is_nan x || is_infinity x then nan
  else if (abs x <? 0x1p-26)%float then x
  else
    let '(q, r) := reduce x in
    let v :=
      if q =? 0 then sin_fix r
      else if q =? 1 then cos_fix r
      else if q =? 2 then - sin_fix r
      else - cos_fix r in
    rnd (signed (negative x) v) (- F).

Definition cos (x : float) : float :=
  if is_nan x || is_infinity x then nan
  else if (abs x <? 0x1p-27)%float then 1%float
  else
    let '(q, r) := reduce x in
    let v :=
      if q =? 0 then cos_fix r
      else if q =? 1 then - sin_fix r
      else if q =? 2 then - cos_fix r
      else sin_fix r in
    rnd v (- F).

Definition tan (x : float) : float :=
  if is_nan x || is_infinity x then nan
  else if (abs x <? 0x1p-27)%float then x
  else
    let '(q, r) := reduce x in
    let S := sin_fix r in
    let C := cos_fix r in
    let v :=
      if Z.even q then Z.shiftl S F / C else - (Z.shiftl C F / S) in
    rnd (signed (negative x) v) (- F).

(** *** Arctangent

    [atan] and [atan2] follow fdlibm ([s_atan.c], [e_atan2.c]), the
    implementation of V8 and of SpiderMonkey: [atan] reduces its argument
    to [|t| < 7/16] around 0, 1/2, 1, 3/2 or infinity and adds an odd
    polynomial of degree 23 to the tabulated arctangent of the centre;
    [atan2] takes the arctangent of the rounded quotient [|y / x|] and
    moves it to the quadrant.  Their tests on the high word of an argument
    are comparisons with a Number whose low word is 0. *)

Definition atanhi0 : float := 0x1.dac670561bb4fp-2%float.
Definition atanhi1 : float := 0x1.921fb54442d18p-1%float.
Definition atanhi2 : float := 0x1.f730bd281f69bp-1%float.
Definition atanhi3 : float := 0x1.921fb54442d18p+0%float.
Definition atanlo0 : float := 0x1.a2b7f222f65e2p-56%float.
Definition atanlo1 : float := 0x1.1a62633145c07p-55%float.
Definition atanlo2 : float := 0x1.007887af0cbbdp-56%float.
Definition atanlo3 : float := 0x1.1a62633145c07p-54%float.

Definition aT0 : float := 0x1.555555555550dp-2%float.
Definition aT1 : float := (-0x1.999999998ebc4p-3)%float.
Definition aT2 : float := 0x1.24924920083ffp-3%float.
Definition aT3 : float := (-0x1.c71c6fe231671p-4)%float.
Definition aT4 : float := 0x1.745cdc54c206ep-4%float.
Definition aT5 : float := (-0x1.3b0f2af749a6dp-4)%float.
Definition aT6 : float := 0x1.10d66a0d03d51p-4%float.
Definition aT7 : float := (-0x1.dde2d52defd9ap-5)%float.
Definition aT8 : float := 0x1.97b4b24760debp-5%float.
Definition aT9 : float := (-0x1.2b4442c6a6c2fp-5)%float.
Definition aT10 : float := 0x1.0ad3ae322da11p-6%float.

(** [x * (s1 + s2)], the odd terms of the polynomial from the third on. *)
Definition atan_poly (x : float) : float :=
  (let z := x * x in
   let w := z * z in
   let s1 :=
     z * (aT0 + w * (aT2 + w * (aT4 + w * (aT6 + w * (aT8 + w * aT10))))) in
   let s2 := w * (aT1 + w * (aT3 + w * (aT5 + w * (aT7 + w * aT9)))) in
   x * (s1 + s2))%float.

Definition atan (x : float) : float :=
  (let ax := abs x in
   if is_nan x then nan
   else if 0x1p66 <=? ax then
     (if get_sign x then - atanhi3 - atanlo3 else atanhi3 + atanlo3)
   else if ax <? 0.4375 then
     (if ax <? 0x1p-29 then x else x - atan_poly x)
   else
     let '(hi, lo, t) :=
       if ax <? 1.1875 then
         if ax <? 0.6875 then (atanhi0, atanlo0, (2 * ax - 1) / (2 + ax))
         else (atanhi1, atanlo1, (ax - 1) / (ax + 1))
       else if ax <? 2.4375
            then (atanhi2, atanlo2, (ax - 1.5) / (1 + 1.5 * ax))
            else (atanhi3, atanlo3, -1 / ax) in
     let z := hi - ((atan_poly t - lo) - t) in
     if get_sign x then - z else z)%float.

Definition pi : float := 0x1.921fb54442d18p+1%float.
Definition pi_lo : float := 0x1.1a62633145c07p-53%float.
Definition pi_o_2 : float := 0x1.921fb54442d18p+0%float.
Definition pi_o_4 : float := 0x1.921fb54442d18p-1%float.
Definition tiny : float := 1e-300%float.

(** The high word of [|x|]: the upper 32 of the 64 bits of a finite
    Number without its sign. *)
Definition high_word (x : float) : Z :=
  match Prim2SF x with
  | S754_finite _ m e => Z.shiftr ((e + 1074) * 2 ^ 52 + Zpos m) 32
  | _ => 0
  end.

Definition atan2 (y x : float) : float :=
  (let sy := get_sign y in
   let sx := get_sign x in
   if is_nan x || is_nan y then nan
   else if x =? 1 then atan y
   else if is_zero y then
     (if sx then (if sy then - pi - tiny else pi + tiny) else y)
   else if is_zero x then (if sy then - pi_o_2 - tiny else pi_o_2 + tiny)
   else if is_infinity x then
     if is_infinity y then
       (if sx then (if sy then (-3) * pi_o_4 - tiny else 3 * pi_o_4 + tiny)
        else (if sy then - pi_o_4 - tiny else pi_o_4 + tiny))
     else
       (if sx then (if sy then - pi - tiny else pi + tiny)
        else (if sy then neg_zero else PrimFloat.zero))
   else if is_infinity y then
     (if sy then - pi_o_2 - tiny else pi_o_2 + tiny)
   else
     let k := Z.shiftr (high_word y - high_word x) 20 in
     if (60 <? k)%Z then
       let z := pi_o_2 + 0.5 * pi_lo in if sy then - z else z
     else
       let z := if sx && (k <? -60)%Z then 0 else atan (abs (y / x)) in
       match sx, sy with
       | false, false => z
       | false, true => - z
       | true, false => pi - (z - pi_lo)
       | true, true => (z - pi_lo) - pi
       end)%float.

(** The integer a Number is, if it is one. *)
Definition integral (y : float) : option Z :=
  match Prim2SF y with
  | S754_zero _ => Some 0
  | S754_finite s m e =>
    if 0 <=? e then Some (signed s (Zpos m * 2 ^ e))
    else if Zpos m mod 2 ^ (- e) =? 0 then Some (signed s (Zpos m / 2 ^ (- e)))
         else None
  | _ => None
  end.

Definition signed_float (neg : bool) (v : float) : float :=
  if neg then (- v)%float else v.

(** Number::exponentiate.  A square is one multiplication, which IEEE
    754 rounds correctly; any other integral exponent gives the exact
    power, rounded once; for any other finite exponent of a finite base,
    which this program never uses, the reference library has no value
    and answers NaN. *)
Definition pow (base exponent : float) : float :=
  if (exponent =? 2)%float then (base * base)%float
  else if is_nan exponent then nan
  else if is_zero exponent then 1%float
  else if is_nan base then nan
  else if is_infinity exponent then
    if is_infinity base || is_zero base then
      (if xorb (is_zero base) (negative exponent) then PrimFloat.zero
       else infinity)
    else if (abs base =? 1)%float then nan
    else if xorb (abs base <? 1)%float (negative exponent) then PrimFloat.zero
         else infinity
  else
    match integral exponent with
    | None => nan
    | Some n =>
      match Prim2SF base with
      | S754_finite s m e =>
        if 0 <? n
        then signed_float (s && Z.odd n) (rnd (Zpos m ^ n) (e * n))
        else
          let '(q, e', l) :=
            SFdiv_core_binary prec emax 1 0 (Zpos m ^ (- n)) (e * - n) in
          SF2Prim (binary_round_aux prec emax (s && Z.odd n) q e' l)
      | S754_zero s =>
        signed_float (s && Z.odd n)
                     (if 0 <? n then PrimFloat.zero else infinity)
      | S754_infinity s =>
        signed_float (s && Z.odd n)
                     (if 0 <? n then infinity else PrimFloat.zero)
      | S754_nan => nan
      end
    end.

Definition lib : MathLib := {|
  m_sin := sin;
  m_cos := cos;
  m_tan := tan;
  m_atan := atan;
  m_atan2 := atan2;
  m_pow := pow
|}.

End RefMath.

(** ** Exact numbers *)

Module Exact.
Local Open Scope R_scope.

(** A real number, or the undefined value that a division by zero and the
    square root of a negative number give, that every operation passes on
    and that compares false with everything: NaN without the rounding. *)
Inductive xreal : Type :=
| Real (r : R)
| Undef.

Definition lift1 (g : R -> R) (u : xreal) : xreal :=
  match u with
  | Real p => Real (g p)
  | Undef => Undef
  end.

Definition lift2 (g : R -> R -> R) (u v : xreal) : xreal :=
  match u, v with
  | Real p, Real q => Real (g p q)
  | _, _ => Undef
  end.

Definition xdiv (u v : xreal) : xreal :=
  match u, v with
  | Real p, Real q => if Req_dec_T q 0 then Undef else Real (p / q)
  | _, _ => Undef
  end.

Definition xlt (u v : xreal) : bool :=
  match u, v with
  | Real p, Real q => if Rlt_dec p q then true else false
  | _, _ => false
  end.

Definition xeq (u v : xreal) : bool :=
  match u, v with
  | Real p, Real q => if Req_dec_T p q then true else false
  | _, _ => false
  end.

Definition is_undef (u : xreal) : bool :=
  match u with
  | Real _ => false
  | Undef => true
  end.

Definition xsqrt (u : xreal) : xreal :=
  match u with
  | Real p => if Rlt_dec p 0 then Undef else Real (R_sqrt.sqrt p)
  | Undef => Undef
  end.

Definition xtan (u : xreal) : xreal :=
  match u with
  | Real p => if Req_dec_T (cos p) 0 then Undef else Real (tan p)
  | Undef => Undef
  end.

(** The angle of the point [(x, y)], in [(-PI, PI]]; 0 at the origin. *)
Definition atan2 (y x : R) : R :=
  if Rlt_dec 0 x then atan (y / x)
  else if Rlt_dec x 0
       then (if Rlt_dec y 0 then atan (y / x) - PI else atan (y / x) + PI)
       else if Rlt_dec 0 y then PI / 2
            else if Rlt_dec y 0 then - (PI / 2) else 0.

(** [p ** q]: a product for the exponent 2, an integral power for an
    integral exponent, [exp (q ln p)] for a positive base; undefined where
    the power is (a zero base with a negative exponent, a negative base
    with a fractional one). *)
Definition xpow (u v : xreal) : xreal :=
  match u, v with
  | Real p, Real q =>
    if Req_dec_T q 2 then Real (p * p)
    else if Req_dec_T q (IZR (Int_part q)) then
           if Req_dec_T p 0
           then (if Rlt_dec q 0 then Undef
                 else if Req_dec_T q 0 then Real 1 else Real 0)
           else Real (powerRZ p (Int_part q))
         else if Rlt_dec 0 p then Real (Rpower p q)
              else if Req_dec_T p 0
                   then (if Rlt_dec 0 q then Real 0 else Undef)
                   else Undef
  | _, _ => Undef
  end.

Definition of_decimal (m e : Z) : xreal := Real (IZR m * powerRZ 10 e).

Section Number.
(** The two conversions between Numbers and decimal text are those of the
    engine; in exact arithmetic they are left open. *)
Variable to_fixed : xreal -> Z -> string.
Variable string_to_number : string -> xreal.

Definition number : JSNumber xreal := {|
  lit := of_decimal;
  NaN := Undef;
  add := lift2 Rplus;
  sub := lift2 Rminus;
  mul := lift2 Rmult;
  div := xdiv;
  pow := xpow;
  lt := xlt;
  gt := fun u v => xlt v u;
  strict_eq := xeq;
  isNaN := is_undef;
  Math_PI := Real PI;
  Math_abs := lift1 Rabs;
  Math_sqrt := xsqrt;
  Math_sin := lift1 sin;
  Math_cos := lift1 cos;
  Math_tan := xtan;
  Math_atan := lift1 atan;
  Math_atan2 := lift2 atan2;
  toFixed := to_fixed;
  StringToNumber := string_to_number
|}.
End Number.

(** *** Constants of the program, and the effect of swapping the points *)



Definition neg (u : xreal) : xreal := lift1 Ropp u.




End Exact.

(** ** Classes of binary64 values, on their [SpecFloat] form *)

(** Zeros and finite numbers. *)
Definition SFfinite (u : spec_float) : bool :=
  match u with
  | S754_zero _ | S754_finite _ _ _ => true
  | _ => false
  end.

(** The sign a value carries, when it is no NaN. *)
Definition SFsigned (s : bool) (u : spec_float) : Prop :=
  match u with
  | S754_zero s' | S754_infinity s' | S754_finite s' _ _ => s' = s
  | S754_nan => False
  end.

(** Values that are not below zero: the zeros, the positive numbers and
    [+infinity]. *)
Definition SFnonneg (u : spec_float) : bool :=
  match u with
  | S754_zero _ => true
  | S754_infinity s | S754_finite s _ _ => negb s
  | S754_nan => false
  end.

(** ** The passes of the loop, one by one *)

Section Passes.
Context {num : Type} `{JSNumber num}.
Variables (L sinU1 cosU1 sinU2 cosU2 : num).

(** The [n]-th pass (counted from 0) of the loop body when nothing ends the
    loop before it: the lambda it starts from, which it will call
    [lambdaP], and the variables it assigns.  [None] when this pass or an
    earlier one returns 0. *)
Fixpoint pass (n : nat) (lambda0 : num) : option (num * vars) :=
  match n with
  | O => option_map (pair lambda0) (body L sinU1 cosU1 sinU2 cosU2 lambda0)
  | S n' =>
    match body L sinU1 cosU1 sinU2 cosU2 lambda0 with
    | Some v => pass n' v.(lambda)
    | None => None
    end
  end.

(** The first conjunct of the loop condition after a pass:
    [Math.abs(lambda - lambdaP) > 1e-12]. *)
Definition over_tolerance (p : num * vars) : bool :=
  (Math_abs ((snd p).(lambda) - fst p) > lit 1 (-12))%js.

(** All of the passes [0 .. n-1] run to their end and leave the tolerance
    unmet. *)
Fixpoint all_over (n : nat) (lambda0 : num) : bool :=
  match n with
  | O => true
  | S n' =>
    match body L sinU1 cosU1 sinU2 cosU2 lambda0 with
    | Some v => over_tolerance (lambda0, v) && all_over n' v.(lambda)
    | None => false
    end
  end.
End Passes.

(** The passes of [distVincenty] on given points. *)
Definition vincenty_pass {num : Type} `{JSNumber num}
           (lat1 lon1 lat2 lon2 : num) (n : nat) : option (num * vars) :=
  let L := toRad (lon2 - lon1)%js in
  pass L (Math_sin (U lat1)) (Math_cos (U lat1))
       (Math_sin (U lat2)) (Math_cos (U lat2)) n L.

Definition vincenty_all_over {num : Type} `{JSNumber num}
           (lat1 lon1 lat2 lon2 : num) (n : nat) : bool :=
  let L := toRad (lon2 - lon1)%js in
  all_over L (Math_sin (U lat1)) (Math_cos (U lat1))
           (Math_sin (U lat2)) (Math_cos (U lat2)) n L.

(** ** The spec's reading of the reduced latitude

    [U = atan((1-f)*tan(lat))], and the solver with this [U] in place of
    the program's [U]: the rest is the program's own loop and closing
    statements. *)
Definition reduced_latitude {num : Type} `{JSNumber num} (lat : num) : num :=
  Math_atan ((#1 - f) * Math_tan (toRad lat))%js.

Definition distVincenty_spec {num : Type} `{JSNumber num}
           (lat1 lon1 lat2 lon2 : num) : value num :=
  let L := toRad (lon2 - lon1)%js in
  let U1 := reduced_latitude lat1 in
  let U2 := reduced_latitude lat2 in
  match do_while L (Math_sin U1) (Math_cos U1) (Math_sin U2) (Math_cos U2)
                 100 L with
  | Coincident => VNumber #0%js
  | Left _ O => VNumber NaN
  | Left v _ => VString (toFixed (distance v) 3)
  end.

(** The operations of a Number instance, unfolded to those of the model. *)
Ltac js_ops :=
  cbv [IEEE.number Exact.number lit NaN add sub mul div pow lt gt strict_eq
       isNaN Math_PI Math_abs Math_sqrt Math_sin Math_cos Math_tan Math_atan
       Math_atan2 toFixed StringToNumber].

(* ================================================================== *)
(** * Properties *)

(** ** Binary64 arithmetic

    Facts of IEEE 754 arithmetic that the properties below rest on, from
    the specification of the primitive operations. *)

Section Binary64.
Local Open Scope float_scope.


Lemma SFeqb_refl_finite (s : bool) (m : positive) (e : Z) :
  SFeqb (S754_finite s m e) (S754_finite s m e) = true.
Proof.
  unfold SFeqb, SFcompare.
  rewrite Z.compare_refl, Pos.compare_cont_refl. now destruct s.
Qed.

Lemma is_nan_spec (u : float) :
  is_nan u = match Prim2SF u with S754_nan => true | _ => false end.
Proof.
  unfold is_nan. rewrite FloatAxioms.eqb_spec.
  destruct (Prim2SF u) as [s|s| |s m e]; try reflexivity.
  - now destruct s.
  - now rewrite SFeqb_refl_finite.
Qed.

Lemma is_infinity_spec (u : float) :
  is_infinity u = match Prim2SF u with S754_infinity _ => true | _ => false end.
Proof.
  unfold is_infinity. rewrite FloatAxioms.eqb_spec, abs_spec.
  replace (Prim2SF infinity) with (S754_infinity false) by reflexivity.
  now destruct (Prim2SF u) as [s|s| |s m e].
Qed.

Lemma is_finite_spec (u : float) : is_finite u = SFfinite (Prim2SF u).
Proof.
  unfold is_finite. rewrite is_nan_spec, is_infinity_spec.
  now destruct (Prim2SF u).
Qed.

Lemma sub_self (u : float) : is_finite u = true -> u - u = 0.
Proof.
  rewrite is_finite_spec. intros Hfin.
  apply Prim2SF_inj. rewrite sub_spec.
  replace (Prim2SF 0) with (S754_zero false) by reflexivity.
  destruct (Prim2SF u) as [s|s| |s m e]; try discriminate.
  - now destruct s.
  - unfold SF64sub, SFsub, shl_align. rewrite Z.min_id, Z.sub_diag. simpl.
    reflexivity.
Qed.

Lemma mul_comm (u v : float) : u * v = v * u.
Proof.
  apply Prim2SF_inj. rewrite !mul_spec. unfold SF64mul, SFmul.
  destruct (Prim2SF u) as [s|s| |s m e], (Prim2SF v) as [s'|s'| |s' m' e'];
    try reflexivity; rewrite ?(xorb_comm s s'); try reflexivity.
  now rewrite Pos.mul_comm, Z.add_comm.
Qed.


(** *** Rounding *)

Lemma shr_1_double (m : Z) :
  (0 <= m)%Z ->
  shr_1 {| shr_m := 2 * m; shr_r := false; shr_s := false |}
  = {| shr_m := m; shr_r := false; shr_s := false |}.
Proof. destruct m as [|p|p]; [reflexivity|reflexivity|lia]. Qed.

Lemma iter_shr_1_exact (n : positive) :
  forall m : Z,
    (0 <= m)%Z ->
    iter_pos shr_1 n
             {| shr_m := m * 2 ^ Zpos n; shr_r := false; shr_s := false |}
    = {| shr_m := m; shr_r := false; shr_s := false |}.
Proof.
  induction n as [n IH|n IH|]; intros m Hm; cbn [iter_pos].
  - replace (m * 2 ^ Zpos n~1)%Z with (2 * (m * 2 ^ Zpos n * 2 ^ Zpos n))%Z.
    + rewrite shr_1_double by (apply Z.mul_nonneg_nonneg; lia).
      rewrite IH by (apply Z.mul_nonneg_nonneg; lia). now apply IH.
    + replace (Zpos n~1) with (Zpos n + Zpos n + 1)%Z by lia.
      rewrite !Z.pow_add_r by lia. ring.
  - replace (m * 2 ^ Zpos n~0)%Z with (m * 2 ^ Zpos n * 2 ^ Zpos n)%Z.
    + rewrite IH by (apply Z.mul_nonneg_nonneg; lia). now apply IH.
    + replace (Zpos n~0) with (Zpos n + Zpos n)%Z by lia.
      rewrite !Z.pow_add_r by lia. ring.
  - rewrite Z.pow_1_r, Z.mul_comm. now apply shr_1_double.
Qed.

Lemma shr_1_bounds (mrs : shr_record) :
  (0 <= shr_m mrs)%Z ->
  (0 <= shr_m (shr_1 mrs) <= shr_m mrs)%Z.
Proof.
  destruct mrs as [m r s]. simpl. intros Hm.
  destruct m as [|[p|p|]|p]; simpl; lia.
Qed.

Lemma iter_shr_1_bounds (n : positive) :
  forall mrs : shr_record,
    (0 <= shr_m mrs)%Z ->
    (0 <= shr_m (iter_pos shr_1 n mrs) <= shr_m mrs)%Z.
Proof.
  induction n as [n IH|n IH|]; intros mrs Hm; cbn [iter_pos].
  - pose proof (shr_1_bounds mrs Hm) as H1.
    pose proof (IH _ (proj1 H1)) as H2.
    pose proof (IH _ (proj1 H2)) as H3. lia.
  - pose proof (IH _ Hm) as H2.
    pose proof (IH _ (proj1 H2)) as H3. lia.
  - now apply shr_1_bounds.
Qed.

Lemma Zdigits2_log2 (p : positive) :
  Zdigits2 (Zpos p) = (Z.log2 (Zpos p) + 1)%Z.
Proof.
  unfold Zdigits2.
  assert (Hsize : forall q, digits2_pos q = Pos.size q)
    by (induction q as [q IH|q IH|]; simpl; now rewrite ?IH).
  rewrite Hsize. destruct p; simpl; lia.
Qed.

Lemma Zdigits2_nonneg (m : Z) : (0 <= Zdigits2 m)%Z.
Proof. destruct m; simpl; lia. Qed.

Lemma Zdigits2_mul_pow2 (p : positive) (n : Z) :
  (0 <= n)%Z -> Zdigits2 (Zpos p * 2 ^ n) = (Zdigits2 (Zpos p) + n)%Z.
Proof.
  intros Hn.
  assert (Hpos : (0 < Zpos p * 2 ^ n)%Z) by (apply Z.mul_pos_pos; lia).
  destruct (Zpos p * 2 ^ n)%Z as [|q|q] eqn:E; try lia.
  rewrite !Zdigits2_log2, <- E, Z.log2_mul_pow2 by lia. lia.
Qed.

Lemma Zdigits2_le (m m' : Z) :
  (0 <= m <= m')%Z -> (Zdigits2 m <= Zdigits2 m')%Z.
Proof.
  intros [H0 Hle]. destruct m as [|p|p]; [apply Zdigits2_nonneg| |lia].
  destruct m' as [|p'|p']; try lia.
  rewrite !Zdigits2_log2. pose proof (Z.log2_le_mono _ _ Hle). lia.
Qed.

Lemma Zdigits2_succ (m : Z) :
  (0 <= m)%Z -> (Zdigits2 (m + 1) <= Zdigits2 m + 1)%Z.
Proof.
  intros H0. destruct m as [|p|p]; [simpl; lia| |lia].
  replace (Zpos p + 1)%Z with (Zpos (p + 1)) by lia.
  rewrite !Zdigits2_log2.
  pose proof (Z.log2_succ_le (Zpos p)).
  replace (Z.succ (Zpos p)) with (Zpos (p + 1)) in * by lia. lia.
Qed.

Lemma Zdigits2_mul (p q : positive) :
  (Zdigits2 (Zpos (p * q)) <= Zdigits2 (Zpos p) + Zdigits2 (Zpos q))%Z.
Proof.
  rewrite !Zdigits2_log2, Pos2Z.inj_mul.
  pose proof (Z.log2_mul_above (Zpos p) (Zpos q)). lia.
Qed.

(** What validity says of a finite number's mantissa and exponent. *)
Lemma bounded_spec (m : positive) (e : Z) :
  bounded prec emax m e = true ->
  fexp prec emax (Zdigits2 (Zpos m) + e) = e /\ (e <= 971)%Z
  /\ (Zdigits2 (Zpos m) <= 53)%Z.
Proof.
  unfold bounded, canonical_mantissa. intros H.
  apply andb_prop in H as [Hc He].
  apply Z.eqb_eq in Hc. apply Z.leb_le in He.
  change (emax - prec)%Z with 971%Z in He.
  split; [exact Hc|]. split; [exact He|].
  unfold fexp, SpecFloat.emin in Hc. simpl Zdigits2.
  change prec with 53%Z in Hc. change emax with 1024%Z in Hc. lia.
Qed.

Lemma shr_fexp_exponent (m e : Z) (l : location) :
  snd (shr_fexp prec emax m e l)
  = Z.max e (fexp prec emax (Zdigits2 m + e)).
Proof.
  unfold shr_fexp, shr.
  destruct (fexp prec emax (Zdigits2 m + e) - e)%Z eqn:E; simpl; lia.
Qed.

Lemma shr_fexp_mantissa (m e : Z) (l : location) :
  (0 <= m)%Z ->
  (0 <= shr_m (fst (shr_fexp prec emax m e l)) <= m)%Z.
Proof.
  intros Hm. unfold shr_fexp, shr.
  assert (H0 : (0 <= shr_m (shr_record_of_loc m l))%Z
               /\ shr_m (shr_record_of_loc m l) = m)
    by (destruct l as [|[| |]]; simpl; lia).
  destruct H0 as [H0 H1].
  destruct (fexp prec emax (Zdigits2 m + e) - e)%Z; simpl; try lia.
  pose proof (iter_shr_1_bounds p _ H0). lia.
Qed.

Lemma round_nearest_even_bounds (m : Z) (l : location) :
  (m <= round_nearest_even m l <= m + 1)%Z.
Proof.
  destruct l as [|[| |]]; simpl; try lia. destruct (Z.even m); lia.
Qed.


(** Rounding a non-negative mantissa keeps the sign it is given. *)
Lemma binary_round_aux_signed (s : bool) (m e : Z) (l : location) :
  (0 <= m)%Z -> SFsigned s (binary_round_aux prec emax s m e l).
Proof.
  intros Hm. unfold binary_round_aux.
  destruct (shr_fexp prec emax m e l) as [mrs1 e1] eqn:E1.
  pose proof (shr_fexp_mantissa m e l Hm) as B1. rewrite E1 in B1. simpl in B1.
  pose proof (round_nearest_even_bounds (shr_m mrs1) (loc_of_shr_record mrs1)) as B2.
  set (m1 := round_nearest_even (shr_m mrs1) (loc_of_shr_record mrs1)) in *.
  destruct (shr_fexp prec emax m1 e1 loc_Exact) as [mrs2 e2] eqn:E2.
  pose proof (shr_fexp_mantissa m1 e1 loc_Exact ltac:(lia)) as B3.
  rewrite E2 in B3. simpl in B3.
  destruct (shr_m mrs2) as [|p|p] eqn:E3; simpl; try reflexivity; try lia.
  now destruct (e2 <=? 971)%Z.
Qed.

(** ... and cannot overflow from a mantissa of at most 106 bits (a product
    of two mantissas) and an exponent that is not positive. *)
Lemma binary_round_aux_finite (s : bool) (m e : Z) (l : location) :
  (0 <= m)%Z -> (e <= 0)%Z -> (Zdigits2 m <= 106)%Z ->
  SFfinite (binary_round_aux prec emax s m e l) = true.
Proof.
  intros Hm He Hd. unfold binary_round_aux.
  destruct (shr_fexp prec emax m e l) as [mrs1 e1] eqn:E1.
  pose proof (shr_fexp_mantissa m e l Hm) as B1. rewrite E1 in B1. simpl in B1.
  pose proof (shr_fexp_exponent m e l) as X1. rewrite E1 in X1. simpl in X1.
  pose proof (round_nearest_even_bounds (shr_m mrs1) (loc_of_shr_record mrs1)) as B2.
  set (m1 := round_nearest_even (shr_m mrs1) (loc_of_shr_record mrs1)) in *.
  destruct (shr_fexp prec emax m1 e1 loc_Exact) as [mrs2 e2] eqn:E2.
  pose proof (shr_fexp_mantissa m1 e1 loc_Exact ltac:(lia)) as B3.
  rewrite E2 in B3. simpl in B3.
  pose proof (shr_fexp_exponent m1 e1 loc_Exact) as X2. rewrite E2 in X2. simpl in X2.
  assert (Hd1 : (Zdigits2 m1 <= Zdigits2 m + 1)%Z).
  { pose proof (Zdigits2_le m1 (m + 1) ltac:(lia)).
    pose proof (Zdigits2_succ m Hm). lia. }
  assert (He2 : (e2 <= 971)%Z).
  { unfold fexp, SpecFloat.emin in X1, X2.
    change prec with 53%Z in *. change emax with 1024%Z in *.
    pose proof (Zdigits2_nonneg m). lia. }
  destruct (shr_m mrs2) as [|p|p] eqn:E3; simpl; try reflexivity; try lia.
  apply Z.leb_le in He2. now rewrite He2.
Qed.

(** The definitions of [SpecFloat], restated with the operations of [Z]
    that [lia] and the lemmas of [ZArith] know. *)
Lemma shr_fexp_eq (m e : Z) (l : location) :
  shr_fexp prec emax m e l
  = shr (shr_record_of_loc m l) e (fexp prec emax (Zdigits2 m + e) - e).
Proof. reflexivity. Qed.

Lemma shr_pos (mrs : shr_record) (e : Z) (p : positive) :
  shr mrs e (Zpos p) = (iter_pos shr_1 p mrs, (e + Zpos p)%Z).
Proof. reflexivity. Qed.

Lemma shr_zero (mrs : shr_record) (e : Z) : shr mrs e 0 = (mrs, e).
Proof. reflexivity. Qed.

(** Rounding a mantissa that only carries [n] more low zero bits than a
    valid one gives that number back. *)
Lemma binary_round_aux_exact (s : bool) (m : positive) (e : Z) (n : positive) :
  bounded prec emax m e = true ->
  binary_round_aux prec emax s (Zpos m * 2 ^ Zpos n) (e - Zpos n) loc_Exact
  = S754_finite s m e.
Proof.
  intros Hb. destruct (bounded_spec m e Hb) as [Hc [He Hd]].
  unfold binary_round_aux.
  rewrite shr_fexp_eq, Zdigits2_mul_pow2 by lia.
  replace (Zdigits2 (Zpos m) + Zpos n + (e - Zpos n))%Z
    with (Zdigits2 (Zpos m) + e)%Z by lia.
  rewrite Hc. replace (e - (e - Zpos n))%Z with (Zpos n) by lia.
  rewrite shr_pos. cbn [shr_record_of_loc].
  rewrite iter_shr_1_exact by lia.
  cbn [shr_m loc_of_shr_record round_nearest_even].
  replace (e - Zpos n + Zpos n)%Z with e by lia.
  rewrite shr_fexp_eq, Hc, Z.sub_diag, shr_zero.
  cbn [shr_record_of_loc shr_m].
  apply Z.leb_le in He. change (emax - prec)%Z with 971%Z. now rewrite He.
Qed.

Lemma mul_one_r (u : float) : u * 1 = u.
Proof.
  apply Prim2SF_inj. rewrite mul_spec.
  replace (Prim2SF 1) with (S754_finite false 4503599627370496 (-52))
    by reflexivity.
  pose proof (Prim2SF_valid u) as Hv.
  destruct (Prim2SF u) as [s|s| |s m e]; simpl; rewrite ?xorb_false_r;
    try reflexivity.
  apply (binary_round_aux_exact s m e 52 Hv).
Qed.

Lemma mul_neg_one_r (u : float) : u * (-1) = - u.
Proof.
  apply Prim2SF_inj. rewrite mul_spec, opp_spec.
  replace (Prim2SF (-1)) with (S754_finite true 4503599627370496 (-52))
    by reflexivity.
  pose proof (Prim2SF_valid u) as Hv.
  destruct (Prim2SF u) as [s|s| |s m e]; simpl; rewrite ?xorb_true_r;
    try reflexivity.
  apply (binary_round_aux_exact (negb s) m e 52 Hv).
Qed.

Lemma mul_zero_sq (c : float) :
  is_finite c = true -> (c * 0) * (c * 0) = 0.
Proof.
  rewrite is_finite_spec. intros Hfin.
  apply Prim2SF_inj. rewrite !mul_spec.
  replace (Prim2SF 0) with (S754_zero false) by reflexivity.
  destruct (Prim2SF c) as [s|s| |s m e]; try discriminate; simpl;
    now destruct s.
Qed.

Lemma abs_le_one_spec (u : float) :
  (abs u <=? 1) = true ->
  match Prim2SF u with
  | S754_zero _ => True
  | S754_finite _ _ e => (e <= 0)%Z
  | _ => False
  end.
Proof.
  rewrite leb_spec, abs_spec.
  replace (Prim2SF 1) with (S754_finite false 4503599627370496 (-52))
    by reflexivity.
  destruct (Prim2SF u) as [s|s| |s m e]; simpl; try easy.
  unfold SFleb, SFcompare.
  destruct (Z.compare_spec e (-52)); try discriminate; intros _; lia.
Qed.

Lemma abs_le_one_finite (u : float) :
  (abs u <=? 1) = true -> is_finite u = true.
Proof.
  intros H. apply abs_le_one_spec in H. rewrite is_finite_spec.
  now destruct (Prim2SF u).
Qed.

(** The product of two numbers of magnitude at most 1 does not overflow. *)
Lemma mul_le_one_finite (u v : float) :
  (abs u <=? 1) = true -> (abs v <=? 1) = true -> is_finite (u * v) = true.
Proof.
  intros Hu Hv. apply abs_le_one_spec in Hu, Hv.
  rewrite is_finite_spec, mul_spec.
  pose proof (Prim2SF_valid u) as Vu. pose proof (Prim2SF_valid v) as Vv.
  destruct (Prim2SF u) as [s|s| |s m e], (Prim2SF v) as [s'|s'| |s' m' e'];
    try easy.
  destruct (bounded_spec m e Vu) as [_ [_ Du]].
  destruct (bounded_spec m' e' Vv) as [_ [_ Dv]].
  apply binary_round_aux_finite; [lia|lia|].
  pose proof (Zdigits2_mul m m'). lia.
Qed.

Lemma zero_mul_div_zero (w : float) : 0 * (w / 0) = nan.
Proof.
  apply Prim2SF_inj. rewrite mul_spec, div_spec.
  replace (Prim2SF 0) with (S754_zero false) by reflexivity.
  replace (Prim2SF nan) with S754_nan by reflexivity.
  now destruct (Prim2SF w) as [s|s| |s m e].
Qed.


Lemma leb_zero_spec (u : float) : (0 <=? u) = SFnonneg (Prim2SF u).
Proof.
  rewrite leb_spec.
  replace (Prim2SF 0) with (S754_zero false) by reflexivity.
  destruct (Prim2SF u) as [s|s| |s m e]; try reflexivity; now destruct s.
Qed.

Lemma ltb_zero_spec (u : float) :
  (u <? 0) = match Prim2SF u with
             | S754_infinity s | S754_finite s _ _ => s
             | _ => false
             end.
Proof.
  rewrite ltb_spec.
  replace (Prim2SF 0) with (S754_zero false) by reflexivity.
  destruct (Prim2SF u) as [s|s| |s m e]; try reflexivity; now destruct s.
Qed.

Lemma SFsigned_nonneg (u : spec_float) : SFsigned false u -> SFnonneg u = true.
Proof. destruct u; simpl; intros H; subst; easy. Qed.

Lemma binary_round_signed (s : bool) (m : positive) (e : Z) :
  SFsigned s (binary_round prec emax s m e).
Proof.
  unfold binary_round.
  destruct (shl_align m e (fexp prec emax (Zpos (digits2_pos m) + e)))
    as [mz ez].
  apply binary_round_aux_signed. lia.
Qed.

Lemma binary_normalize_signed (z e : Z) :
  SFsigned (z <? 0)%Z (binary_normalize prec emax z e false).
Proof.
  destruct z as [|p|p]; simpl; [reflexivity| |]; apply binary_round_signed.
Qed.

Lemma add_nonneg (u v : float) :
  (0 <=? u) = true -> (0 <=? v) = true -> (0 <=? u + v) = true.
Proof.
  rewrite !leb_zero_spec, add_spec. unfold SF64add, SFadd.
  destruct (Prim2SF u) as [s|s| |s m e], (Prim2SF v) as [s'|s'| |s' m' e'];
    cbn [SFnonneg]; try easy;
    try (destruct s; try discriminate; destruct s'; now try discriminate).
  intros Hs Hs'. destruct s, s'; try discriminate. cbn [cond_Zopp].
  apply SFsigned_nonneg.
  match goal with
  | |- SFsigned false (binary_normalize _ _ ?z ?e _) =>
    pose proof (binary_normalize_signed z e) as Hn;
      replace (z <? 0)%Z with false in Hn by (symmetry; apply Z.ltb_ge; lia)
  end.
  exact Hn.
Qed.

Lemma sqrt_nonneg (u : float) : (0 <=? u) = true -> (0 <=? sqrt u) = true.
Proof.
  rewrite !leb_zero_spec, sqrt_spec. unfold SF64sqrt, SFsqrt.
  destruct (Prim2SF u) as [s|s| |s m e]; simpl; try easy.
  - now destruct s.
  - destruct s; [discriminate|]. intros _.
    destruct (SFsqrt_core_binary prec emax (Zpos m) e) as [[mz ez] lz] eqn:E.
    apply SFsigned_nonneg, binary_round_aux_signed.
    unfold SFsqrt_core_binary in E.
    match type of E with
    | (let (q, r) := Z.sqrtrem ?a in _) = _ =>
      pose proof (Z.sqrtrem_spec a) as Hs; destruct (Z.sqrtrem a) as [q r]
    end.
    injection E as <- _ _.
    match type of Hs with
    | (0 <= ?a)%Z -> _ => 
      assert (H0 : (0 <= a)%Z);
        [ destruct (e - 2 * _)%Z; try lia; rewrite Z.shiftl_mul_pow2 by lia;
          apply Z.mul_nonneg_nonneg; lia
        | specialize (Hs H0) ]
    end.
    nia.
Qed.

Lemma sub_not_nan (u v : float) :
  is_finite u = true -> is_finite v = true -> is_nan (u - v) = false.
Proof.
  rewrite !is_finite_spec, is_nan_spec, sub_spec. unfold SF64sub, SFsub.
  destruct (Prim2SF u) as [s|s| |s m e], (Prim2SF v) as [s'|s'| |s' m' e'];
    try discriminate; intros _ _; try reflexivity.
  - now destruct s, s'.
  - match goal with
    | |- match binary_normalize _ _ ?z ?e _ with _ => _ end = _ =>
      pose proof (binary_normalize_signed z e) as Hn;
        destruct (binary_normalize prec emax z e false)
    end; easy.
Qed.

Lemma abs_cases (u : float) : abs u = u \/ abs u = - u.
Proof.
  destruct (Prim2SF u) as [s|s| |s m e] eqn:E.
  1,2,4: destruct s; [right|left]; apply Prim2SF_inj;
    rewrite ?opp_spec, abs_spec, E; reflexivity.
  left. apply Prim2SF_inj. now rewrite abs_spec, E.
Qed.

Lemma is_nan_abs (u : float) : is_nan (abs u) = is_nan u.
Proof. rewrite !is_nan_spec, abs_spec. now destruct (Prim2SF u). Qed.
End Binary64.

(** ** The loop: tolerance, cap and the NaN sentinel *)

Section LoopFacts.
Context {num : Type} `{JSNumber num}.
Variables (L sinU1 cosU1 sinU2 cosU2 : num).

Local Abbreviation body' := (body L sinU1 cosU1 sinU2 cosU2).
Local Abbreviation do_while' := (do_while L sinU1 cosU1 sinU2 cosU2).
Local Abbreviation pass' := (pass L sinU1 cosU1 sinU2 cosU2).
Local Abbreviation all_over' := (all_over L sinU1 cosU1 sinU2 cosU2).

Lemma do_while_unfold (iterLimit : nat) (lambda0 : num) :
  do_while' iterLimit lambda0 =
  match body' lambda0 with
  | None => Coincident
  | Some v =>
    if over_tolerance (lambda0, v) then
      match iterLimit with
      | S (S _ as iterLimit') => do_while' iterLimit' v.(lambda)
      | _ => Left v (Nat.pred iterLimit)
      end
    else Left v iterLimit
  end.
Proof. destruct iterLimit; reflexivity. Qed.

Lemma pass_succ (n : nat) (lambda0 : num) (v : vars) :
  body' lambda0 = Some v -> pass' (S n) lambda0 = pass' n v.(lambda).
Proof. intros Hb; simpl; now rewrite Hb. Qed.

(** A pass that exists was preceded by a pass 0 that ran to its end. *)
Lemma pass_first (n : nat) (lambda0 : num) (p : num * vars) :
  pass' n lambda0 = Some p -> exists v, body' lambda0 = Some v.
Proof.
  destruct n; simpl; destruct (body' lambda0) as [v|]; try discriminate;
    intros _; now exists v.
Qed.

(** The loop is left after the first pass that meets the tolerance, with
    that pass's variables and [iterLimit] decremented once per earlier
    pass. *)
Lemma do_while_stops (n : nat) :
  forall (iterLimit : nat) (lambda0 : num) (p : num * vars),
    (n < iterLimit)%nat ->
    pass' n lambda0 = Some p ->
    over_tolerance p = false ->
    (forall k q, (k < n)%nat -> pass' k lambda0 = Some q ->
                 over_tolerance q = true) ->
    do_while' iterLimit lambda0 = Left (snd p) (iterLimit - n).
Proof.
  induction n as [|n IH]; intros iterLimit lambda0 p Hlt Hp Hmet Hbefore.
  - rewrite do_while_unfold. simpl in Hp.
    destruct (body' lambda0) as [v|]; [|discriminate].
    injection Hp as <-. rewrite Hmet. simpl. now rewrite Nat.sub_0_r.
  - destruct (pass_first _ _ _ Hp) as [v Hv].
    rewrite do_while_unfold, Hv.
    assert (H0 : over_tolerance (lambda0, v) = true).
    { apply (Hbefore 0%nat); [lia|]. simpl. now rewrite Hv. }
    rewrite H0.
    destruct iterLimit as [|[|iterLimit]]; try lia.
    rewrite (IH (S iterLimit) v.(lambda) p); [reflexivity|lia| | |].
    + now rewrite <- (pass_succ n _ _ Hv).
    + exact Hmet.
    + intros k q Hk Hq. apply (Hbefore (S k)); [lia|].
      now rewrite (pass_succ k _ _ Hv).
Qed.

(** When every pass the counter allows leaves the tolerance unmet, the
    loop is left after the last of them with [iterLimit] at 0. *)
Lemma do_while_cap (iterLimit : nat) :
  forall lambda0 : num,
    all_over' (S iterLimit) lambda0 = true ->
    exists q, pass' iterLimit lambda0 = Some q
              /\ do_while' (S iterLimit) lambda0 = Left (snd q) 0.
Proof.
  induction iterLimit as [|n IH]; intros lambda0 Hall.
  - rewrite do_while_unfold. simpl in *.
    destruct (body' lambda0) as [v|]; [|discriminate].
    apply andb_prop in Hall as [Hov _]. rewrite Hov.
    exists (lambda0, v). now split.
  - rewrite do_while_unfold.
    change (all_over' (S (S n)) lambda0)
      with (match body' lambda0 with
            | Some v => over_tolerance (lambda0, v) && all_over' (S n) v.(lambda)
            | None => false
            end) in Hall.
    destruct (body' lambda0) as [v|] eqn:Hv; [|discriminate].
    apply andb_prop in Hall as [Hov Hrest]. rewrite Hov.
    destruct (IH _ Hrest) as [q [Hq Hdo]].
    exists q. split; [|exact Hdo].
    now rewrite (pass_succ n _ _ Hv).
Qed.

(** [all_over] read pass by pass. *)
Lemma all_over_pass (n : nat) :
  forall lambda0 : num,
    all_over' n lambda0 = true <->
    (forall k, (k < n)%nat ->
               exists q, pass' k lambda0 = Some q /\ over_tolerance q = true).
Proof.
  induction n as [|n IH]; intros lambda0; simpl.
  - split; [intros _ k Hk; lia | reflexivity].
  - destruct (body' lambda0) as [v|] eqn:Hv.
    + rewrite andb_true_iff, IH. split.
      * intros [H0 Hrest] [|k] Hk.
        -- exists (lambda0, v). simpl. now rewrite Hv.
        -- rewrite (pass_succ k _ _ Hv). apply Hrest. lia.
      * intros Hall. split.
        -- destruct (Hall 0%nat) as [q [Hq Hov]]; [lia|].
           simpl in Hq. rewrite Hv in Hq. now injection Hq as <-.
        -- intros k Hk. rewrite <- (pass_succ k _ _ Hv). apply Hall. lia.
    + split; [discriminate|].
      intros Hall. destruct (Hall 0%nat) as [q [Hq _]]; [lia|].
      simpl in Hq. now rewrite Hv in Hq.
Qed.
End LoopFacts.

(** C3.  The iteration of [distVincenty] stops after the first pass that
    meets the tolerance (the loop's test [Math.abs(lambda - lambdaP) > 1e-12]
    fails), provided that pass is among the first 100, and the function
    then returns the distance computed from that pass's variables; and when
    the test holds after each of 100 passes the loop stops there, the cap
    exhausted, and the function returns the Number NaN, not a distance. *)
Theorem C3_tolerance_cap_sentinel {num : Type} `{JSNumber num}
        (lat1 lon1 lat2 lon2 : num) :
  (forall (n : nat) (p : num * vars),
      (n < 100)%nat ->
      vincenty_pass lat1 lon1 lat2 lon2 n = Some p ->
      over_tolerance p = false ->
      (forall k q, (k < n)%nat ->
                   vincenty_pass lat1 lon1 lat2 lon2 k = Some q ->
                   over_tolerance q = true) ->
      distVincenty lat1 lon1 lat2 lon2
      = VString (toFixed (distance (snd p)) 3))
  /\ ((forall k, (k < 100)%nat ->
                 exists q, vincenty_pass lat1 lon1 lat2 lon2 k = Some q
                           /\ over_tolerance q = true) ->
      distVincenty lat1 lon1 lat2 lon2 = VNumber NaN).
Proof.
  unfold vincenty_pass, distVincenty. split.
  - intros n p Hn Hp Hmet Hbefore.
    rewrite (do_while_stops _ _ _ _ _ _ _ _ _ Hn Hp Hmet Hbefore).
    destruct (100 - n)%nat eqn:E; [lia|reflexivity].
  - intros Hall. apply all_over_pass in Hall.
    destruct (do_while_cap _ _ _ _ _ _ _ Hall) as [q [_ Hdo]].
    now rewrite Hdo.
Qed.

(** ** Binary64: identity, parallax and the degenerate pipeline *)

Section IdentityFacts.
Import IEEE.
Local Open Scope float_scope.
Variable M : MathLib.
Local Hint Extern 0 (JSNumber float) => exact (number M) : typeclass_instances.

Lemma toRad_zero : @toRad float (number M) 0 = 0.
Proof. reflexivity. Qed.

(** The first pass on coincident points finds [sinSigma = 0]. *)
Lemma body_coincident (sinU cosU : float) :
  m_sin M 0 = 0 -> m_cos M 0 = 1 ->
  (abs sinU <=? 1) = true -> (abs cosU <=? 1) = true ->
  @body float (number M) 0 sinU cosU sinU cosU 0 = None.
Proof.
  intros Hs Hc Hsin Hcos. unfold body. js_ops.
  rewrite Hs, Hc.
  rewrite (mul_zero_sq cosU (abs_le_one_finite _ Hcos)).
  rewrite (mul_one_r (sinU * cosU)), (mul_comm sinU cosU).
  rewrite (sub_self _ (mul_le_one_finite _ _ Hcos Hsin)).
  reflexivity.
Qed.


Lemma leb_not_gt (u v : float) : (u <=? v) = true -> (v <? u) = false.
Proof.
  rewrite leb_spec, ltb_spec. unfold SFleb, SFltb, SFcompare.
  destruct (Prim2SF u) as [s|s| |s m e], (Prim2SF v) as [s'|s'| |s' m' e'];
    try reflexivity; try (destruct s; try destruct s'; easy).
  change (Pos.compare_cont Eq m m') with (Pos.compare m m').
  change (Pos.compare_cont Eq m' m) with (Pos.compare m' m).
  rewrite (Z.compare_antisym e e'), (Pos.compare_antisym m m').
  destruct s, s'; try easy;
    destruct (e ?= e')%Z; simpl; try easy;
    destruct (m ?= m')%positive; easy.
Qed.

(** In binary64 a step of at most 1e-12 fails the loop's test. *)
Lemma tolerance_met (lambdaP : float) (v : vars) :
  (abs (lambda v - lambdaP) <=? 1e-12) = true ->
  over_tolerance (lambdaP, v) = false.
Proof. intros H. unfold over_tolerance. now apply leb_not_gt. Qed.

(** The equatorial guard. *)

(** A finite number minus a non-zero finite number over 0 is infinite. *)
Lemma sub_div_zero_infinite (c w : float) :
  is_finite c = true -> is_finite w = true -> is_zero w = false ->
  is_infinity (c - w / 0) = true /\ is_nan (c - w / 0) = false.
Proof.
  unfold is_zero.
  rewrite !is_finite_spec, is_infinity_spec, is_nan_spec, FloatAxioms.eqb_spec,
    sub_spec, div_spec.
  replace (Prim2SF 0) with (S754_zero false) by reflexivity.
  destruct (Prim2SF c) as [s|s| |s m e], (Prim2SF w) as [s'|s'| |s' m' e'];
    try discriminate; intros _ _ H; try (now destruct s'); now split.
Qed.

(** The guard [isNaN(cos2SigmaM)] does not cover every pass with
    [cosSqAlpha = 0]: when [2 * sinU1 * sinU2] is a non-zero number, the
    quotient is infinite, and the pass leaves [cos2SigmaM] infinite. *)
Lemma equatorial_guard_misses (L sinU1 cosU1 sinU2 cosU2 lam : float)
      (v : vars) :
  body L sinU1 cosU1 sinU2 cosU2 lam = Some v ->
  cosSqAlpha v = 0 ->
  is_finite (cosSigma v) = true ->
  is_finite (2 * sinU1 * sinU2) = true ->
  is_zero (2 * sinU1 * sinU2) = false ->
  is_infinity (cos2SigmaM v) = true.
Proof.
  unfold body. intros Hb.
  destruct (strict_eq _ _); [discriminate|].
  apply (f_equal (fun o => match o with Some w => w | None => v end)) in Hb.
  cbv beta iota in Hb. subst v. cbn [cosSqAlpha cosSigma cos2SigmaM].
  intros Hz Hc Hw Hnz. rewrite Hz.
  revert Hc Hw Hnz. js_ops. change (of_decimal 2 0) with 2.
  intros Hc Hw Hnz.
  destruct (sub_div_zero_infinite _ _ Hc Hw Hnz) as [Hinf Hnan].
  rewrite Hnan. exact Hinf.
Qed.

Lemma toRad_sub_self (lon : float) :
  is_finite lon = true -> @toRad float (number M) (lon - lon)%js = 0.
Proof.
  intros Hlon. change ((lon - lon)%js) with (lon - lon).
  now rewrite (sub_self lon Hlon).
Qed.

(** On coincident points the loop ends by the early return. *)
Lemma distVincenty_coincident (lat lon : float) :
  is_finite lon = true ->
  m_sin M 0 = 0 -> m_cos M 0 = 1 ->
  (abs (m_sin M (U lat)) <=? 1) = true ->
  (abs (m_cos M (U lat)) <=? 1) = true ->
  distVincenty lat lon lat lon = VNumber 0.
Proof.
  intros Hlon Hs Hc Hsin Hcos.
  unfold distVincenty. cbv zeta. rewrite (toRad_sub_self lon Hlon).
  change (@Math_sin float (number M)) with (m_sin M).
  change (@Math_cos float (number M)) with (m_cos M).
  rewrite do_while_unfold. now rewrite (body_coincident _ _ Hs Hc Hsin Hcos).
Qed.

(** C5.  [distVincenty(p, p)] is the Number 0 for every point [p] with a
    finite longitude, on an engine whose [Math.sin(0)] is 0 and
    [Math.cos(0)] is 1 (as ECMAScript requires) and whose sine and cosine of
    the reduced latitude lie in [-1, 1]: the first pass of the loop finds
    [sinSigma === 0] and returns. *)
Theorem C5_identity (lat lon : float) :
  is_finite lon = true ->
  m_sin M 0 = 0 -> m_cos M 0 = 1 ->
  (abs (m_sin M (U lat)) <=? 1) = true ->
  (abs (m_cos M (U lat)) <=? 1) = true ->
  vincenty_pass lat lon lat lon 0 = None
  /\ distVincenty lat lon lat lon = VNumber 0.
Proof.
  intros Hlon Hs Hc Hsin Hcos. split.
  - unfold vincenty_pass. cbv zeta. rewrite (toRad_sub_self lon Hlon).
    change (@Math_sin float (number M)) with (m_sin M).
    change (@Math_cos float (number M)) with (m_cos M).
    cbn [pass]. now rewrite (body_coincident _ _ Hs Hc Hsin Hcos).
  - unfold distVincenty. cbv zeta. rewrite (toRad_sub_self lon Hlon).
    change (@Math_sin float (number M)) with (m_sin M).
    change (@Math_cos float (number M)) with (m_cos M).
    rewrite do_while_unfold.
    now rewrite (body_coincident _ _ Hs Hc Hsin Hcos).
Qed.

Lemma squared_abs (d : float) :
  (forall u, m_pow M (- u) 2 = m_pow M u 2) ->
  m_pow M (if d <? 0 then d * (-1) else d) 2 = m_pow M (abs d) 2.
Proof.
  intros Heven.
  assert (Habs : m_pow M (abs d) 2 = m_pow M d 2)
    by (destruct (abs_cases d) as [-> | ->]; [reflexivity|apply Heven]).
  rewrite Habs. destruct (d <? 0); [|reflexivity].
  rewrite mul_neg_one_r. apply Heven.
Qed.

(** C8.  [parallaxAngle] returns [sqrt(|ra2 - ra1|^2 + |dec1 - dec2|^2)] on
    all inputs; on finite inputs the result is at least 0, and it is 0 when
    the two observations are the same.  The engine's squaring is taken to
    be even, to give no negative number and no NaN from a number, and to
    give 0 from 0. *)
Theorem C8_parallax_pythagoras (ra1 dec1 ra2 dec2 : float) :
  (forall u, m_pow M (- u) 2 = m_pow M u 2) ->
  (forall u, is_nan u = false -> (0 <=? m_pow M u 2) = true) ->
  m_pow M 0 2 = 0 ->
  parallaxAngle ra1 dec1 ra2 dec2
  = sqrt (m_pow M (abs (ra2 - ra1)) 2 + m_pow M (abs (dec1 - dec2)) 2)
  /\ (is_finite ra1 = true -> is_finite dec1 = true ->
      is_finite ra2 = true -> is_finite dec2 = true ->
      (0 <=? parallaxAngle ra1 dec1 ra2 dec2) = true)
  /\ (is_finite ra1 = true -> is_finite dec1 = true ->
      parallaxAngle ra1 dec1 ra1 dec1 = 0).
Proof.
  intros Heven Hnonneg Hzero.
  assert (Hform : forall r1 d1 r2 d2,
             parallaxAngle r1 d1 r2 d2
             = sqrt (m_pow M (abs (r2 - r1)) 2 + m_pow M (abs (d1 - d2)) 2)).
  { intros. unfold parallaxAngle. js_ops.
    change (of_decimal 0 0) with 0. change (of_decimal 2 0) with 2.
    change (of_decimal (-1) 0) with (-1).
    now rewrite !(squared_abs _ Heven). }
  split; [apply Hform|]. split.
  - intros F1 F2 F3 F4. rewrite Hform.
    apply sqrt_nonneg, add_nonneg; apply Hnonneg; rewrite is_nan_abs;
      now apply sub_not_nan.
  - intros F1 F2. rewrite Hform, !sub_self by assumption.
    change (abs 0) with 0. now rewrite Hzero.
Qed.

(** Short arcs: with either binary64 neighbour of the true cosine of
    [0.0001 / r] (which lies between them), and the rounded square of [r],
    the chord of a 0.0001 km arc comes out as [2^-13] km, above the arc. *)
Lemma chord_exceeds_arc_any_engine :
  m_pow M 6356.7523142 2 = 6356.7523142 * 6356.7523142 ->
  m_cos M (0.0001 / 6356.7523142) = 0x1.fffffffffffffp-1
  \/ m_cos M (0.0001 / 6356.7523142) = 0x1.ffffffffffffep-1 ->
  distTunnel 0.0001 = 0x1p-13 /\ (distTunnel 0.0001 <=? 0.0001) = false.
Proof.
  intros Hr Hcos.
  assert (H : distTunnel 0.0001 = 0x1p-13).
  { unfold distTunnel. js_ops.
    change (of_decimal 2 0) with 2.
    change (of_decimal 63567523142 (-7)) with 6356.7523142.
    rewrite Hr. now destruct Hcos as [-> | ->]. }
  split; [exact H|]. now rewrite H.
Qed.

(** C10.  For two stations with the same GeoPoint and the same
    CelestialObservation (finite coordinates), [distances_to_moon] works
    from a baseline chord of 0 and a parallax angle of 0, and both
    components it returns are NaN: each is [0 * (sin _ / sin 0)], and
    [sin 0] is 0.  The engine is as in C5, and squares 0 to 0 and the
    radius 6356.7523142 to its rounded square. *)
Theorem C10_identical_stations (lat long ra dec alt : float) :
  is_finite long = true -> is_finite ra = true -> is_finite dec = true ->
  m_sin M 0 = 0 -> m_cos M 0 = 1 ->
  (abs (m_sin M (U lat)) <=? 1) = true ->
  (abs (m_cos M (U lat)) <=? 1) = true ->
  m_pow M 0 2 = 0 ->
  m_pow M 6356.7523142 2 = 6356.7523142 * 6356.7523142 ->
  distTunnel (ToNumber (distVincenty lat long lat long) / #1000)%js = 0
  /\ parallaxAngle ra dec ra dec = 0
  /\ distances_to_moon lat long ra dec alt lat long ra dec alt = [nan; nan].
Proof.
  intros Flong Fra Fdec Hs Hc Hsin Hcos Hz Hr.
  pose proof (distVincenty_coincident lat long Flong Hs Hc Hsin Hcos) as Hd.
  assert (Hchord : distTunnel (ToNumber (distVincenty lat long lat long) / #1000)%js = 0).
  { rewrite Hd. unfold distTunnel, ToNumber. js_ops.
    change (of_decimal 2 0) with 2.
    change (of_decimal 63567523142 (-7)) with 6356.7523142.
    change (0 / of_decimal 1000 0 / 6356.7523142) with 0.
    now rewrite Hc, Hr. }
  assert (Hpar : parallaxAngle ra dec ra dec = 0).
  { unfold parallaxAngle. js_ops. rewrite !sub_self by assumption.
    change (of_decimal 0 0) with 0. change (of_decimal 2 0) with 2.
    change (0 <? 0) with false. cbv iota. now rewrite Hz. }
  split; [exact Hchord|]. split; [exact Hpar|].
  unfold distances_to_moon. rewrite Hchord, Hpar.
  unfold e_to_m_distance.
  replace (@Math_sin float (number M) (toRad 0)) with 0
    by (rewrite toRad_zero; symmetry; exact Hs).
  change (@mul float (number M)) with PrimFloat.mul.
  change (@div float (number M)) with PrimFloat.div.
  now rewrite !zero_mul_div_zero.
Qed.
End IdentityFacts.

Section ReferenceEngine.
Import IEEE.
Local Open Scope float_scope.
Local Hint Extern 0 (JSNumber float) => exact (number RefMath.lib) : typeclass_instances.

Lemma mul_opp_opp (u v : float) : (- u) * (- v) = u * v.
Proof.
  apply Prim2SF_inj. rewrite !mul_spec, !opp_spec. unfold SF64mul, SFmul.
  destruct (Prim2SF u) as [s|s| |s m e], (Prim2SF v) as [s'|s'| |s' m' e'];
    simpl; try reflexivity; now destruct s, s'.
Qed.

Lemma mul_self_nonneg (u : float) :
  is_nan u = false -> (0 <=? u * u) = true.
Proof.
  rewrite is_nan_spec, leb_zero_spec, mul_spec. unfold SF64mul, SFmul.
  destruct (Prim2SF u) as [s|s| |s m e]; try discriminate; intros _;
    simpl; rewrite ?xorb_nilpotent; try reflexivity.
  apply SFsigned_nonneg, binary_round_aux_signed. lia.
Qed.

Lemma C5_identity_witness :
  distVincenty 50.06632 (-5.71475) 50.06632 (-5.71475) = VNumber 0.
Proof.
  apply (C5_identity RefMath.lib 50.06632 (-5.71475)); vm_compute; reflexivity.
Defined.

Lemma C8_parallax_pythagoras_witness :
  (0 <=? parallaxAngle 35.5 12.25 36.75 11.5) = true
  /\ parallaxAngle 35.5 12.25 35.5 12.25 = 0.
Proof.
  destruct (C8_parallax_pythagoras RefMath.lib 35.5 12.25 36.75 11.5
              (fun u => mul_opp_opp u u) mul_self_nonneg eq_refl) as [_ [Hge _]].
  destruct (C8_parallax_pythagoras RefMath.lib 35.5 12.25 35.5 12.25
              (fun u => mul_opp_opp u u) mul_self_nonneg eq_refl) as [_ [_ Hzero]].
  split; [apply Hge | apply Hzero]; reflexivity.
Defined.

Lemma C10_identical_stations_witness :
  distances_to_moon 50.06632 (-5.71475) 35.5 12.25 41
                    50.06632 (-5.71475) 35.5 12.25 41
  = [nan; nan].
Proof.
  apply (C10_identical_stations RefMath.lib 50.06632 (-5.71475) 35.5 12.25 41);
    vm_compute; reflexivity.
Defined.
End ReferenceEngine.

(** ** Evaluations on the reference engine *)

Section Evaluations.
Import IEEE.
Local Open Scope float_scope.
Local Hint Extern 0 (JSNumber float) => exact (number RefMath.lib) : typeclass_instances.

(** C1.  The program's [U] is [atan(1 - f) * tan(lat)], not the reduced
    latitude [atan((1 - f) * tan(lat))]: at latitude 50.06632 it is above
    0.93 rad, the reduced latitude below 0.88 rad. *)
Lemma C1_U_is_not_the_reduced_latitude :
  U 50.06632 = (Math_atan (#1 - f) * Math_tan (toRad 50.06632))%js
  /\ (0.93 <? U 50.06632) = true
  /\ (reduced_latitude 50.06632 <? 0.88) = true.
Proof. repeat split; vm_compute; reflexivity. Qed.

(** C2.  On the Vincenty test vector the program returns 2233875.679, not
    969954.166; with the reduced latitude in place of its [U], the same
    loop and closing statements give 969954.166. *)
Lemma C2_test_vector_distance :
  distVincenty 50.06632 (-5.71475) 58.64402 (-3.07009)
  = VString "2233875.679"
  /\ distVincenty_spec 50.06632 (-5.71475) 58.64402 (-3.07009)
     = VString "969954.166".
Proof. split; vm_compute; reflexivity. Qed.

(** C9.  At latitude 1e-9 (a tenth of a millimetre north of the equator) on
    both points, the first pass computes [cosSqAlpha = 0] and leaves
    [cos2SigmaM] at minus infinity, which [isNaN] does not catch; the new
    [lambda] is NaN and the function returns the string NaN. *)
Lemma C9_near_equator_NaN :
  option_map (fun p => (cosSqAlpha (snd p), cos2SigmaM (snd p)))
             (vincenty_pass 1e-9 0 1e-9 1 0)
  = Some (0, neg_infinity)
  /\ option_map (fun p => is_nan (lambda (snd p)))
                (vincenty_pass 1e-9 0 1e-9 1 0) = Some true
  /\ distVincenty 1e-9 0 1e-9 1 = VString "NaN".
Proof. repeat split; vm_compute; reflexivity. Qed.


(** C6.  A tenth of a millimetre and ten centimetres north of the equator,
    a quarter of a turn apart.  From the first point to the second the
    first pass computes [sinAlpha = 1], so [cosSqAlpha = 0] and an infinite
    [cos2SigmaM] that the guard lets through, as in C9, and the result is
    the String NaN; from the second to the first the same pass computes
    [cosSqAlpha = 2^-52], the loop converges, and the result is the
    distance. *)
Lemma C6_asymmetric_pair :
  distVincenty 1e-9 0 8.6e-7 90 = VString "NaN"
  /\ distVincenty 8.6e-7 90 1e-9 0 = VString "10018754.171"
  /\ option_map (fun p => (sinAlpha (snd p), cosSqAlpha (snd p),
                           cos2SigmaM (snd p)))
                (vincenty_pass 1e-9 0 8.6e-7 90 0)
     = Some (1, 0, neg_infinity)
  /\ option_map (fun p => cosSqAlpha (snd p))
                (vincenty_pass 8.6e-7 90 1e-9 0 0)
     = Some 0x1p-52
  /\ distVincenty 1e-9 0 8.6e-7 90 <> distVincenty 8.6e-7 90 1e-9 0.
Proof.
  assert (H1 : distVincenty 1e-9 0 8.6e-7 90 = VString "NaN")
    by (vm_compute; reflexivity).
  assert (H2 : distVincenty 8.6e-7 90 1e-9 0 = VString "10018754.171")
    by (vm_compute; reflexivity).
  repeat split; try assumption; try (vm_compute; reflexivity).
  rewrite H1, H2. discriminate.
Qed.

(** [Math.atan2] rounds the quotient before it takes the arctangent, and
    its result can be the lower neighbour of the true angle.  This is the
    last [sigma] from (36.46, 116.46) to (-7.34, 110.4); the two directions
    between these points agree to the last digit. *)
Lemma atan2_rounds_the_quotient_first :
  RefMath.atan2 0x1.44e50d031712ep-1 0x1.8bb6163bb6f2ep-1
  = 0x1.5ff804cb15677p-1
  /\ RefMath.atan (0x1.44e50d031712ep-1 / 0x1.8bb6163bb6f2ep-1)
     = 0x1.5ff804cb15677p-1
  /\ distVincenty 36.46 116.46 (-7.34) 110.4 = VString "4371199.302"
  /\ distVincenty (-7.34) 110.4 36.46 116.46 = VString "4371199.302".
Proof. repeat split; vm_compute; reflexivity. Qed.

(** Paris to London meets the tolerance on the fourth pass; from (0, 0)
    to (0.5, 179.7) a hundred passes leave it unmet. *)
Lemma C3_tolerance_cap_sentinel_witness :
  distVincenty 48.85 2.35 51.5 (-0.12) = VString "586240.511"
  /\ distVincenty 0 0 0.5 179.7 = VNumber nan.
Proof.
  split.
  - match eval vm_compute in (vincenty_pass 48.85 2.35 51.5 (-0.12) 3) with
    | Some ?p =>
      assert (Hp : vincenty_pass 48.85 2.35 51.5 (-0.12) 3 = Some p)
        by (vm_compute; reflexivity);
      rewrite (proj1 (C3_tolerance_cap_sentinel 48.85 2.35 51.5 (-0.12)) 3%nat p)
    end.
    + vm_compute. reflexivity.
    + lia.
    + exact Hp.
    + vm_compute. reflexivity.
    + intros k q Hk Hq.
      destruct k as [|[|[|k]]]; [| | |lia]; vm_compute in Hq;
        injection Hq as <-; vm_compute; reflexivity.
  - refine (proj2 (C3_tolerance_cap_sentinel 0 0 0.5 179.7) _).
    apply all_over_pass. vm_compute. reflexivity.
Defined.
End Evaluations.

(** ** Exact arithmetic: the chord and the symmetry *)

Section ExactFacts.
Import Exact.
Local Open Scope R_scope.
Variable to_fixed : xreal -> Z -> string.
Variable string_to_number : string -> xreal.
Local Hint Extern 0 (JSNumber xreal) =>
  exact (number to_fixed string_to_number) : typeclass_instances.

(** An integer literal is the integer. *)
Lemma of_decimal_int (n : Z) : of_decimal n 0 = Real (IZR n).
Proof. unfold of_decimal. simpl. f_equal. ring. Qed.

Lemma xdiv_real (p q : R) : q <> 0 -> xdiv (Real p) (Real q) = Real (p / q).
Proof. intros Hq. unfold xdiv. now destruct (Req_dec_T q 0). Qed.










Lemma toRad_real (d : R) : toRad (Real d) = Real (d * PI / 180).
Proof.
  unfold toRad. js_ops. rewrite of_decimal_int. cbn [lift2].
  rewrite xdiv_real by lra. reflexivity.
Qed.













(** The triangulation on defined arguments, in real arithmetic: the angles
    at the two stations are [90 + (att1 - att2 - parallax) / 2] and
    [90 + (att2 - att1 - parallax) / 2] degrees. *)
Lemma e_to_m_distance_real (att1 att2 p d : R) :
  sin (p * PI / 180) <> 0 ->
  e_to_m_distance (Real att1) (Real att2) (Real p) (Real d)
  = [Real (d * (sin ((90 + (att2 - att1 - p) / 2) * PI / 180)
                / sin (p * PI / 180)));
     Real (d * (sin ((90 + (att1 - att2 - p) / 2) * PI / 180)
                / sin (p * PI / 180)))].
Proof.
  intros Hp. unfold e_to_m_distance.
  change (@add xreal _) with (lift2 Rplus).
  change (@sub xreal _) with (lift2 Rminus).
  change (@mul xreal _) with (lift2 Rmult).
  change (@div xreal _) with xdiv.
  change (@Math_sin xreal _) with (lift1 sin).
  change (@lit xreal _) with of_decimal.
  rewrite !of_decimal_int. cbn [lift2].
  rewrite (xdiv_real _ 2) by lra. cbn [lift2].
  rewrite !toRad_real. cbn [lift1].
  rewrite !xdiv_real by exact Hp. cbn [lift2].
  replace (90 - (180 - (360 - (360 - (360 - att1 - att2 - p) + 90 + 90))) / 2
           + att2)
    with (90 + (att2 - att1 - p) / 2) by field.
  replace (90 - (180 - (360 - (360 - (360 - att1 - att2 - p) + 90 + 90))) / 2
           + att1)
    with (90 + (att1 - att2 - p) / 2) by field.
  reflexivity.
Qed.
End ExactFacts.


(** ** Triangulation *)

(** C4.  [e_to_m_distance] derives, in degrees and in this order, ANB, AOB,
    OAB = OBA, NAB and NBA (the complements of OAB and OBA),
    MAB = NAB + att1 and MBA = NBA + att2.  Only then it converts MAB, MBA
    and the parallax angle to radians, each as [angle * Math.PI / 180],
    inside the sine that takes it, and it returns
    [baseline * (sin MBArad / sin parallaxrad);
     baseline * (sin MABrad / sin parallaxrad)].
    The conversion is the one from degrees to radians: in binary64 it
    takes 180 to [Math.PI]; in exact arithmetic it multiplies by pi / 180,
    the two angles are [90 + (att1 - att2 - parallax) / 2] and
    [90 + (att2 - att1 - parallax) / 2] degrees, which with the parallax
    angle add up to 180, and the results are the two sides that the law of
    sines gives for these angles, whenever the sine of the parallax angle
    is not 0. *)
Theorem C4_triangulation_sequence :
  (forall (num : Type) (N : JSNumber num)
          (att1 att2 parallaxtheta distance_tunnel : num),
      exists ANB AOB OAB OBA NAB NBA MAB MBA MABrad MBArad parallaxtheta_rad
             : num,
        (ANB = #360 - (#360 - att1 - att2 - parallaxtheta)
         /\ AOB = #360 - (ANB + #90 + #90)
         /\ OAB = (#180 - AOB) / #2
         /\ OBA = OAB
         /\ NAB = #90 - OAB
         /\ NBA = #90 - OBA
         /\ MAB = NAB + att1
         /\ MBA = NBA + att2
         /\ MABrad = MAB * Math_PI / #180
         /\ MBArad = MBA * Math_PI / #180
         /\ parallaxtheta_rad = parallaxtheta * Math_PI / #180
         /\ e_to_m_distance att1 att2 parallaxtheta distance_tunnel
            = [distance_tunnel * (Math_sin MBArad / Math_sin parallaxtheta_rad);
               distance_tunnel * (Math_sin MABrad / Math_sin parallaxtheta_rad)]
        )%js)
  /\ (forall M : IEEE.MathLib,
         @toRad float (IEEE.number M) 180%float = 0x1.921fb54442d18p+1%float)
  /\ (forall (to_fixed : Exact.xreal -> Z -> string)
             (string_to_number : string -> Exact.xreal)
             (att1 att2 parallaxtheta distance_tunnel : R),
         sin (parallaxtheta * PI / 180) <> 0%R ->
         let MAB := (90 + (att1 - att2 - parallaxtheta) / 2)%R in
         let MBA := (90 + (att2 - att1 - parallaxtheta) / 2)%R in
         (MAB + MBA + parallaxtheta = 180)%R
         /\ @toRad Exact.xreal (Exact.number to_fixed string_to_number)
                   (Exact.Real 180) = Exact.Real PI
         /\ @e_to_m_distance Exact.xreal
                             (Exact.number to_fixed string_to_number)
                             (Exact.Real att1) (Exact.Real att2)
                             (Exact.Real parallaxtheta)
                             (Exact.Real distance_tunnel)
            = [Exact.Real (distance_tunnel
                           * (sin (MBA * PI / 180)
                              / sin (parallaxtheta * PI / 180)))%R;
               Exact.Real (distance_tunnel
                           * (sin (MAB * PI / 180)
                              / sin (parallaxtheta * PI / 180)))%R]).
Proof.
  split; [|split].
  - intros num N att1 att2 parallaxtheta distance_tunnel.
    do 11 eexists. repeat (split; [reflexivity|]). reflexivity.
  - intros M. reflexivity.
  - intros to_fixed string_to_number att1 att2 parallaxtheta distance_tunnel
           Hp MAB MBA.
    split; [unfold MAB, MBA; field|]. split.
    + rewrite toRad_real. f_equal. field.
    + now apply e_to_m_distance_real.
Qed.

(** A right-angled triangle: 45 degrees at each station, 90 at the target,
    100 km between the stations. *)
Lemma C4_triangulation_sequence_witness :
  @e_to_m_distance Exact.xreal
                   (Exact.number (fun _ _ => EmptyString)
                                 (fun _ => Exact.Undef))
                   (Exact.Real 30) (Exact.Real 30) (Exact.Real 90)
                   (Exact.Real 100)
  = [Exact.Real (100 * (sin ((90 + (30 - 30 - 90) / 2) * PI / 180)
                        / sin (90 * PI / 180)))%R;
     Exact.Real (100 * (sin ((90 + (30 - 30 - 90) / 2) * PI / 180)
                        / sin (90 * PI / 180)))%R].
Proof.
  refine (proj2 (proj2 (proj2 (proj2 C4_triangulation_sequence)
                                (fun _ _ => EmptyString)
                                (fun _ => Exact.Undef) 30 30 90 100 _)%R)).
  replace (90 * PI / 180)%R with (PI / 2)%R by field.
  rewrite sin_PI2. lra.
Defined.

(* ================================================================== *)
(** * Further properties of the program *)

(** ** The three exits of the loop *)

Section ExitFacts.
Context {num : Type} `{JSNumber num}.
Variables (L sinU1 cosU1 sinU2 cosU2 : num).

Local Abbreviation body' := (body L sinU1 cosU1 sinU2 cosU2).
Local Abbreviation do_while' := (do_while L sinU1 cosU1 sinU2 cosU2).
Local Abbreviation pass' := (pass L sinU1 cosU1 sinU2 cosU2).
Local Abbreviation all_over' := (all_over L sinU1 cosU1 sinU2 cosU2).

Lemma all_over_succ (n : nat) (lambda0 : num) (v : vars) :
  body' lambda0 = Some v ->
  all_over' (S n) lambda0 = over_tolerance (lambda0, v) && all_over' n v.(lambda).
Proof. intros Hb. cbn [all_over]. now rewrite Hb. Qed.

(** The three ways out of the loop, for a counter that starts at [S m]:
    the early return of some pass, the first pass that meets the
    tolerance, or the counter at 0 after [S m] passes over tolerance. *)
Lemma do_while_exits (m : nat) :
  forall lambda0 : num,
    (exists n, (n <= m)%nat /\ all_over' n lambda0 = true
               /\ pass' n lambda0 = None
               /\ do_while' (S m) lambda0 = Coincident)
    \/ (exists n p, (n <= m)%nat /\ all_over' n lambda0 = true
                    /\ pass' n lambda0 = Some p
                    /\ over_tolerance p = false
                    /\ do_while' (S m) lambda0 = Left (snd p) (S m - n))
    \/ (all_over' (S m) lambda0 = true
        /\ exists q, pass' m lambda0 = Some q
                     /\ do_while' (S m) lambda0 = Left (snd q) 0).
Proof.
  induction m as [|m IH]; intros lambda0; rewrite do_while_unfold;
    destruct (body' lambda0) as [v|] eqn:Hv.
  - destruct (over_tolerance (lambda0, v)) eqn:Hov.
    + right. right. rewrite (all_over_succ _ _ _ Hv), Hov. split; [reflexivity|].
      exists (lambda0, v). cbn [pass]. now rewrite Hv.
    + right. left. exists 0%nat, (lambda0, v). cbn [pass all_over].
      rewrite Hv. repeat split; auto; try reflexivity; try lia.
  - left. exists 0%nat. cbn [pass all_over]. rewrite Hv. repeat split; auto; try reflexivity; try lia.
  - destruct (over_tolerance (lambda0, v)) eqn:Hov.
    + destruct (IH v.(lambda)) as [[n [Hn [Ha [Hp Hd]]]]
                                  |[[n [p [Hn [Ha [Hp [Ho Hd]]]]]]
                                   |[Ha [q [Hq Hd]]]]].
      * left. exists (S n).
        rewrite (all_over_succ _ _ _ Hv), Hov, (pass_succ _ _ _ _ _ _ _ _ Hv).
        repeat split; auto; try reflexivity; lia.
      * right. left. exists (S n), p.
        rewrite (all_over_succ _ _ _ Hv), Hov, (pass_succ _ _ _ _ _ _ _ _ Hv).
        repeat split; auto; try reflexivity; lia.
      * right. right.
        rewrite (all_over_succ _ _ _ Hv), Hov, (pass_succ _ _ _ _ _ _ _ _ Hv).
        split; [exact Ha|]. now exists q.
    + right. left. exists 0%nat, (lambda0, v). cbn [pass all_over].
      rewrite Hv. repeat split; auto; try reflexivity; try lia.
  - left. exists 0%nat. cbn [pass all_over]. rewrite Hv. repeat split; auto; try reflexivity; lia.
Qed.
End ExitFacts.

(** X1.  [distVincenty] has exactly three outcomes.  Either some pass
    among the first 100, reached through passes that all left the tolerance
    unmet, finds [sinSigma === 0], and the result is the Number 0; or the
    first pass to meet the tolerance is among the first 100, and the result
    is the String [toFixed] makes of the distance computed from that pass;
    or 100 passes leave the tolerance unmet, and the result is the Number
    NaN.  A distance is therefore never returned as a Number, and never
    from a pass that failed the tolerance test. *)
Theorem X1_distVincenty_exits {num : Type} `{JSNumber num}
        (lat1 lon1 lat2 lon2 : num) :
  (exists n, (n < 100)%nat
             /\ vincenty_all_over lat1 lon1 lat2 lon2 n = true
             /\ vincenty_pass lat1 lon1 lat2 lon2 n = None
             /\ distVincenty lat1 lon1 lat2 lon2 = VNumber #0%js)
  \/ (exists n p, (n < 100)%nat
                  /\ vincenty_all_over lat1 lon1 lat2 lon2 n = true
                  /\ vincenty_pass lat1 lon1 lat2 lon2 n = Some p
                  /\ over_tolerance p = false
                  /\ distVincenty lat1 lon1 lat2 lon2
                     = VString (toFixed (distance (snd p)) 3))
  \/ (vincenty_all_over lat1 lon1 lat2 lon2 100 = true
      /\ distVincenty lat1 lon1 lat2 lon2 = VNumber NaN).
Proof.
  unfold vincenty_all_over, vincenty_pass, distVincenty. cbv zeta.
  match goal with
  | |- context [do_while ?L ?s1 ?c1 ?s2 ?c2 100 ?l] =>
    destruct (do_while_exits L s1 c1 s2 c2 99 l)
      as [[n [Hn [Ha [Hp Hd]]]]
         |[[n [p [Hn [Ha [Hp [Ho Hd]]]]]]
          |[Ha [q [Hq Hd]]]]]
  end.
  - left. exists n. rewrite Hd. repeat split; auto; try reflexivity; lia.
  - right. left. exists n, p. rewrite Hd.
    destruct (100 - n)%nat eqn:E; [lia|]. repeat split; auto; try reflexivity; lia.
  - right. right. rewrite Hd. now split.
Qed.

(** ** Binary64: NaN, signs and symmetric rounding *)

Section Binary64Signs.
Local Open Scope float_scope.

Lemma is_nan_eq (u : float) : is_nan u = true -> u = nan.
Proof.
  rewrite is_nan_spec. intros H. apply Prim2SF_inj.
  replace (Prim2SF nan) with S754_nan by reflexivity.
  now destruct (Prim2SF u).
Qed.

Lemma mul_nan_l (u : float) : nan * u = nan.
Proof. apply Prim2SF_inj. rewrite mul_spec. reflexivity. Qed.

Lemma mul_nan_r (u : float) : u * nan = nan.
Proof. now rewrite mul_comm, mul_nan_l. Qed.

Lemma div_nan_l (u : float) : nan / u = nan.
Proof. apply Prim2SF_inj. rewrite div_spec. reflexivity. Qed.

Lemma div_nan_r (u : float) : u / nan = nan.
Proof.
  apply Prim2SF_inj. rewrite div_spec.
  replace (Prim2SF nan) with S754_nan by reflexivity.
  now destruct (Prim2SF u).
Qed.

Lemma add_nan_l (u : float) : nan + u = nan.
Proof. apply Prim2SF_inj. rewrite add_spec. reflexivity. Qed.

Lemma add_nan_r (u : float) : u + nan = nan.
Proof.
  apply Prim2SF_inj. rewrite add_spec.
  replace (Prim2SF nan) with S754_nan by reflexivity.
  now destruct (Prim2SF u).
Qed.

Lemma sub_nan_l (u : float) : nan - u = nan.
Proof. apply Prim2SF_inj. rewrite sub_spec. reflexivity. Qed.

Lemma sub_nan_r (u : float) : u - nan = nan.
Proof.
  apply Prim2SF_inj. rewrite sub_spec.
  replace (Prim2SF nan) with S754_nan by reflexivity.
  now destruct (Prim2SF u).
Qed.

Lemma ltb_nan_r (u : float) : (u <? nan) = false.
Proof.
  rewrite ltb_spec. replace (Prim2SF nan) with S754_nan by reflexivity.
  now destruct (Prim2SF u).
Qed.

(** Rounding is symmetric: the sign is carried beside the magnitude. *)
Lemma binary_round_aux_opp (s : bool) (m e : Z) (l : location) :
  SFopp (binary_round_aux prec emax s m e l)
  = binary_round_aux prec emax (negb s) m e l.
Proof.
  unfold binary_round_aux.
  destruct (shr_fexp prec emax m e l) as [mrs1 e1].
  destruct (shr_fexp prec emax _ e1 loc_Exact) as [mrs2 e2].
  destruct (shr_m mrs2); try reflexivity.
  now destruct (e2 <=? emax - prec)%Z.
Qed.

Lemma binary_round_opp (s : bool) (m : positive) (e : Z) :
  SFopp (binary_round prec emax s m e) = binary_round prec emax (negb s) m e.
Proof.
  unfold binary_round.
  destruct (shl_align m e _) as [mz ez]. apply binary_round_aux_opp.
Qed.

Lemma SFabs_opp (u : spec_float) : SFabs (SFopp u) = SFabs u.
Proof. now destruct u. Qed.

Lemma binary_normalize_abs_opp (z e : Z) :
  SFabs (binary_normalize prec emax (- z) e false)
  = SFabs (binary_normalize prec emax z e false).
Proof.
  destruct z as [|p|p]; cbn [Z.opp binary_normalize]; [reflexivity| |].
  - now rewrite <- (binary_round_opp false), SFabs_opp.
  - now rewrite <- (binary_round_opp false p), SFabs_opp.
Qed.

Lemma mul_opp_l (u v : float) : (- u) * v = - (u * v).
Proof.
  apply Prim2SF_inj. rewrite !mul_spec, !opp_spec, mul_spec.
  unfold SF64mul, SFmul.
  destruct (Prim2SF u) as [s|s| |s m e], (Prim2SF v) as [s'|s'| |s' m' e'];
    cbn [SFopp]; rewrite <- ?negb_xorb_l; try reflexivity.
  now rewrite binary_round_aux_opp.
Qed.

Lemma mul_opp_r (u v : float) : u * (- v) = - (u * v).
Proof. now rewrite mul_comm, mul_opp_l, (mul_comm v). Qed.

Lemma div_opp_l (u v : float) : (- u) / v = - (u / v).
Proof.
  apply Prim2SF_inj. rewrite !div_spec, !opp_spec, div_spec.
  unfold SF64div, SFdiv.
  destruct (Prim2SF u) as [s|s| |s m e], (Prim2SF v) as [s'|s'| |s' m' e'];
    cbn [SFopp]; rewrite <- ?negb_xorb_l; try reflexivity.
  destruct (SFdiv_core_binary _ _ _ _ _ _) as [[mz ez] lz].
  now rewrite binary_round_aux_opp.
Qed.

(** A difference and the difference the other way round have the same
    magnitude. *)
Lemma abs_sub_swap (u v : float) : abs (u - v) = abs (v - u).
Proof.
  apply Prim2SF_inj. rewrite !abs_spec, !sub_spec. unfold SF64sub, SFsub.
  destruct (Prim2SF u) as [s|s| |s m e], (Prim2SF v) as [s'|s'| |s' m' e'];
    try reflexivity; try (now destruct s, s').
  cbv zeta.
  replace (IntDef.Z.min e' e) with (IntDef.Z.min e e')
    by (change IntDef.Z.min with Z.min; apply Z.min_comm).
  set (p := cond_Zopp s (Zpos (fst (shl_align m e (IntDef.Z.min e e'))))).
  set (q := cond_Zopp s' (Zpos (fst (shl_align m' e' (IntDef.Z.min e e'))))).
  rewrite <- (binary_normalize_abs_opp (q - p)%Z). f_equal. f_equal. lia.
Qed.

(** Negating both operands of a difference keeps its magnitude. *)
Lemma abs_sub_opp_opp (u v : float) : abs ((- u) - (- v)) = abs (u - v).
Proof.
  apply Prim2SF_inj. rewrite !abs_spec, !sub_spec, !opp_spec.
  unfold SF64sub, SFsub.
  destruct (Prim2SF u) as [s|s| |s m e], (Prim2SF v) as [s'|s'| |s' m' e'];
    cbn [SFopp]; try reflexivity; try (now destruct s, s').
  cbv zeta.
  set (p := Zpos (fst (shl_align m e (IntDef.Z.min e e')))).
  set (q := Zpos (fst (shl_align m' e' (IntDef.Z.min e e')))).
  rewrite <- (binary_normalize_abs_opp (cond_Zopp s p - cond_Zopp s' q)%Z).
  f_equal. f_equal. destruct s, s'; cbn [negb cond_Zopp]; lia.
Qed.

(** A square depends on the magnitude only. *)
Lemma mul_self_abs (u v : float) : abs u = abs v -> u * u = v * v.
Proof.
  intros H. apply (f_equal Prim2SF) in H. rewrite !abs_spec in H.
  apply Prim2SF_inj. rewrite !mul_spec. unfold SF64mul, SFmul.
  destruct (Prim2SF u) as [s|s| |s m e], (Prim2SF v) as [s'|s'| |s' m' e'];
    try discriminate; cbn [SFabs] in H; rewrite ?xorb_nilpotent;
    try reflexivity.
  injection H as -> ->. reflexivity.
Qed.

(** Nothing times a quotient by zero is a finite number. *)
Lemma mul_div_zero_not_finite (d w : float) : is_finite (d * (w / 0)) = false.
Proof.
  rewrite is_finite_spec, mul_spec, div_spec.
  replace (Prim2SF 0) with (S754_zero false) by reflexivity.
  destruct (Prim2SF d) as [s|s| |s m e], (Prim2SF w) as [s'|s'| |s' m' e'];
    reflexivity.
Qed.
End Binary64Signs.

(** NaN through the arithmetic of an expression. *)
Ltac nan_prop :=
  repeat first [ rewrite mul_nan_l | rewrite mul_nan_r
               | rewrite div_nan_l | rewrite div_nan_r
               | rewrite add_nan_l | rewrite add_nan_r
               | rewrite sub_nan_l | rewrite sub_nan_r ].

(** ** The loop, from [all_over] *)

Section StopFacts.
Context {num : Type} `{JSNumber num}.

Lemma all_over_before (L sinU1 cosU1 sinU2 cosU2 : num) (n : nat)
      (lambda0 : num) :
  all_over L sinU1 cosU1 sinU2 cosU2 n lambda0 = true ->
  forall k q, (k < n)%nat ->
              pass L sinU1 cosU1 sinU2 cosU2 k lambda0 = Some q ->
              over_tolerance q = true.
Proof.
  intros Hall k q Hk Hq.
  destruct (proj1 (all_over_pass _ _ _ _ _ n lambda0) Hall k Hk)
    as [q' [Hq' Hov]].
  rewrite Hq in Hq'. now injection Hq' as ->.
Qed.

(** The first pass to fail the loop's test, if among the first 100, is the
    one whose distance is returned. *)
Lemma distVincenty_stops (lat1 lon1 lat2 lon2 : num) (n : nat)
      (p : num * vars) :
  (n < 100)%nat ->
  vincenty_all_over lat1 lon1 lat2 lon2 n = true ->
  vincenty_pass lat1 lon1 lat2 lon2 n = Some p ->
  over_tolerance p = false ->
  distVincenty lat1 lon1 lat2 lon2 = VString (toFixed (distance (snd p)) 3).
Proof.
  unfold vincenty_all_over, vincenty_pass, distVincenty. cbv zeta.
  intros Hn Hall Hp Hmet.
  rewrite (do_while_stops _ _ _ _ _ _ _ _ _ Hn Hp Hmet
                          (all_over_before _ _ _ _ _ _ _ Hall)).
  destruct (100 - n)%nat eqn:E; [lia|reflexivity].
Qed.
End StopFacts.

(** ** Binary64: NaN, symmetry and degenerate observations *)

Section NumberFacts.
Import IEEE.
Local Open Scope float_scope.
Variable M : MathLib.
Local Hint Extern 0 (JSNumber float) => exact (number M) : typeclass_instances.

(** [Math.abs(NaN - lambdaP) > 1e-12] is false. *)
Lemma nan_step_not_over (lambdaP : float) (v : vars) :
  is_nan (lambda v) = true -> over_tolerance (lambdaP, v) = false.
Proof.
  intros Hn. unfold over_tolerance. cbn [fst snd]. js_ops.
  rewrite (is_nan_eq _ Hn), sub_nan_l. change (abs nan) with nan.
  apply ltb_nan_r.
Qed.

(** X2.  A pass whose new [lambda] is NaN ends the loop as a pass that
    meets the tolerance does: when it is among the first 100 and the passes
    before it left the tolerance unmet, [distVincenty] returns the String
    that [toFixed] makes of that pass's distance, not the Number NaN of a
    failure to converge. *)
Theorem X2_nan_step_ends_loop (lat1 lon1 lat2 lon2 : float) (n : nat)
        (p : float * vars) :
  (n < 100)%nat ->
  vincenty_all_over lat1 lon1 lat2 lon2 n = true ->
  vincenty_pass lat1 lon1 lat2 lon2 n = Some p ->
  is_nan (lambda (snd p)) = true ->
  over_tolerance p = false
  /\ distVincenty lat1 lon1 lat2 lon2
     = VString (toFixed (distance (snd p)) 3).
Proof.
  intros Hn Hall Hp Hnan.
  assert (Hmet : over_tolerance p = false)
    by (destruct p as [lp v]; now apply nan_step_not_over).
  split; [exact Hmet|]. now apply (distVincenty_stops _ _ _ _ n p).
Qed.

(** A pass whose radicand is NaN assigns NaN to [sinSigma] and [lambda]. *)
Lemma body_nan (L sinU1 cosU1 sinU2 cosU2 lam : float) :
  (cosU2 * m_sin M lam) * (cosU2 * m_sin M lam)
  + (cosU1 * sinU2 - sinU1 * cosU2 * m_cos M lam)
    * (cosU1 * sinU2 - sinU1 * cosU2 * m_cos M lam) = nan ->
  exists v, body L sinU1 cosU1 sinU2 cosU2 lam = Some v
            /\ lambda v = nan /\ sinSigma v = nan.
Proof.
  intros Hr. unfold body. js_ops. rewrite Hr.
  change (sqrt nan) with nan. change (of_decimal 0 0 =? nan) with false.
  cbv iota. eexists. split; [reflexivity|]. cbn [lambda sinSigma].
  split; [|reflexivity].
  now rewrite div_nan_r, mul_nan_r, mul_nan_l, add_nan_r.
Qed.

Lemma distance_nan (v : vars) : sinSigma v = nan -> distance v = nan.
Proof.
  intros Hs. unfold distance. js_ops. rewrite Hs.
  set (B := _ / of_decimal 1024 0 * _).
  now rewrite (mul_nan_r B), mul_nan_l, sub_nan_r, mul_nan_r.
Qed.

Lemma distVincenty_nan_radicand (lat1 lon1 lat2 lon2 : float) :
  (let L := toRad (lon2 - lon1) in
   let sinU1 := m_sin M (U lat1) in
   let cosU1 := m_cos M (U lat1) in
   let sinU2 := m_sin M (U lat2) in
   let cosU2 := m_cos M (U lat2) in
   (cosU2 * m_sin M L) * (cosU2 * m_sin M L)
   + (cosU1 * sinU2 - sinU1 * cosU2 * m_cos M L)
     * (cosU1 * sinU2 - sinU1 * cosU2 * m_cos M L)) = nan ->
  distVincenty lat1 lon1 lat2 lon2 = VString "NaN".
Proof.
  cbv zeta. intros Hr.
  destruct (body_nan (toRad (lon2 - lon1)) _ _ _ _ _ Hr) as [v [Hb [Hl Hs]]].
  assert (Hp : vincenty_pass lat1 lon1 lat2 lon2 0 = Some (toRad (lon2 - lon1), v)).
  { unfold vincenty_pass. cbv zeta. cbn [pass].
    change (@Math_sin float (number M)) with (m_sin M).
    change (@Math_cos float (number M)) with (m_cos M).
    change (@sub float (number M)) with PrimFloat.sub.
    now rewrite Hb. }
  rewrite (distVincenty_stops lat1 lon1 lat2 lon2 0 _ ltac:(lia) eq_refl Hp).
  - cbn [snd]. now rewrite (distance_nan v Hs).
  - apply nan_step_not_over. cbn [snd]. now rewrite Hl.
Qed.

Lemma toRad_nan : @toRad float (number M) nan = nan.
Proof. unfold toRad. js_ops. now rewrite mul_nan_l, div_nan_l. Qed.

Lemma U_nan : m_tan M nan = nan -> @U float (number M) nan = nan.
Proof.
  intros Ht. unfold U. rewrite toRad_nan.
  change (@Math_tan float (number M)) with (m_tan M). rewrite Ht.
  apply mul_nan_r.
Qed.

(** X3.  When a latitude or a longitude is NaN, on an engine whose sine,
    cosine and tangent of NaN are NaN (as ECMAScript requires),
    [distVincenty] returns the String ["NaN"]: not a Number, and not the
    Number NaN that reports a failure to converge. *)
Theorem X3_distVincenty_NaN_input (lat1 lon1 lat2 lon2 : float) :
  m_sin M nan = nan -> m_cos M nan = nan -> m_tan M nan = nan ->
  is_nan lat1 || is_nan lon1 || is_nan lat2 || is_nan lon2 = true ->
  distVincenty lat1 lon1 lat2 lon2 = VString "NaN".
Proof.
  intros Hsin Hcos Htan Hin. apply distVincenty_nan_radicand. cbv zeta.
  apply orb_prop in Hin as [Hin|Hin];
    [apply orb_prop in Hin as [Hin|Hin];
     [apply orb_prop in Hin as [Hin|Hin]|]|];
    apply is_nan_eq in Hin; subst.
  - rewrite (U_nan Htan), Hcos, Hsin. now nan_prop.
  - change (@sub float (number M) lon2 nan) with (lon2 - nan).
    rewrite sub_nan_r, toRad_nan, Hsin. now nan_prop.
  - rewrite (U_nan Htan), Hcos, Hsin. now nan_prop.
  - change (@sub float (number M) nan lon1) with (nan - lon1).
    rewrite sub_nan_l, toRad_nan, Hsin. now nan_prop.
Qed.

Lemma distTunnel_nan : m_cos M nan = nan -> @distTunnel float (number M) nan = nan.
Proof.
  intros Hcos. unfold distTunnel. js_ops.
  now rewrite div_nan_l, Hcos, mul_nan_r, sub_nan_r.
Qed.

Lemma e_to_m_distance_nan (att1 att2 parallaxtheta : float) :
  @e_to_m_distance float (number M) att1 att2 parallaxtheta nan = [nan; nan].
Proof. unfold e_to_m_distance. js_ops. now rewrite !mul_nan_l. Qed.

(** X4.  A failure of [distVincenty], the Number NaN of non-convergence as
    well as the String ["NaN"], goes through [distances_to_moon] unchecked:
    on an engine whose cosine of NaN is NaN both distances come out NaN,
    whatever the observations. *)
Theorem X4_distances_to_moon_poisoned
        (lat1 long1 ra1 dec1 alt1 lat2 long2 ra2 dec2 alt2 : float) :
  m_cos M nan = nan ->
  distVincenty lat1 long1 lat2 long2 = VNumber nan
  \/ distVincenty lat1 long1 lat2 long2 = VString "NaN" ->
  distances_to_moon lat1 long1 ra1 dec1 alt1 lat2 long2 ra2 dec2 alt2
  = [nan; nan].
Proof.
  intros Hcos Hd. unfold distances_to_moon. cbv zeta.
  assert (Harc : (ToNumber (distVincenty lat1 long1 lat2 long2) / #1000)%js = nan)
    by (destruct Hd as [-> | ->]; reflexivity).
  now rewrite Harc, (distTunnel_nan Hcos), e_to_m_distance_nan.
Qed.

(** X5.  [parallaxAngle] does not depend on the order of the two
    observations, bit for bit, on an engine whose squaring is even. *)
Theorem X5_parallaxAngle_symmetric (ra1 dec1 ra2 dec2 : float) :
  (forall u, m_pow M (- u) 2 = m_pow M u 2) ->
  parallaxAngle ra1 dec1 ra2 dec2 = parallaxAngle ra2 dec2 ra1 dec1.
Proof.
  intros Heven. unfold parallaxAngle. js_ops.
  change (of_decimal 0 0) with 0. change (of_decimal 2 0) with 2.
  change (of_decimal (-1) 0) with (-1).
  rewrite !(squared_abs M _ Heven).
  now rewrite (abs_sub_swap ra2 ra1), (abs_sub_swap dec1 dec2).
Qed.

Lemma parallaxAngle_same (ra dec : float) :
  is_finite ra = true -> is_finite dec = true -> m_pow M 0 2 = 0 ->
  parallaxAngle ra dec ra dec = 0.
Proof.
  intros Fra Fdec Hz. unfold parallaxAngle. js_ops.
  rewrite !sub_self by assumption.
  change (of_decimal 0 0) with 0. change (of_decimal 2 0) with 2.
  change (0 <? 0) with false. cbv iota. now rewrite Hz.
Qed.

(** X6.  Two stations that report the same right ascension and declination
    of the target get no finite distance from [distances_to_moon], wherever
    they stand and whatever altitudes they report: the parallax angle is 0,
    each distance is a product with a quotient by [sin 0 = 0], so it is
    NaN or infinite. *)
Theorem X6_same_sky_position_no_distance
        (lat1 long1 ra dec alt1 lat2 long2 alt2 : float) :
  is_finite ra = true -> is_finite dec = true ->
  m_sin M 0 = 0 -> m_pow M 0 2 = 0 ->
  Forall (fun d => is_finite d = false)
         (distances_to_moon lat1 long1 ra dec alt1 lat2 long2 ra dec alt2).
Proof.
  intros Fra Fdec Hs Hz. unfold distances_to_moon. cbv zeta.
  rewrite (parallaxAngle_same ra dec Fra Fdec Hz). unfold e_to_m_distance.
  replace (@Math_sin float (number M) (toRad 0)) with 0
    by (rewrite toRad_zero; symmetry; exact Hs).
  change (@mul float (number M)) with PrimFloat.mul.
  change (@div float (number M)) with PrimFloat.div.
  repeat constructor; apply mul_div_zero_not_finite.
Qed.

(** Negating both sines leaves a pass as it is. *)
Lemma body_reflect (L sinU1 cosU1 sinU2 cosU2 lam : float) :
  body L (- sinU1) cosU1 (- sinU2) cosU2 lam
  = body L sinU1 cosU1 sinU2 cosU2 lam.
Proof.
  unfold body. js_ops.
  rewrite (mul_opp_r cosU1 sinU2), (mul_opp_l sinU1 cosU2),
    (mul_opp_l (sinU1 * cosU2)).
  rewrite (mul_self_abs _ _ (abs_sub_opp_opp (cosU1 * sinU2)
                                              (sinU1 * cosU2 * m_cos M lam))).
  rewrite (mul_opp_opp sinU1 sinU2).
  rewrite (mul_opp_r (of_decimal 2 0) sinU1), (mul_opp_opp _ sinU2).
  reflexivity.
Qed.

Lemma do_while_reflect (L sinU1 cosU1 sinU2 cosU2 : float) (iterLimit : nat) :
  forall lam : float,
    do_while L (- sinU1) cosU1 (- sinU2) cosU2 iterLimit lam
    = do_while L sinU1 cosU1 sinU2 cosU2 iterLimit lam.
Proof.
  induction iterLimit as [|n IH]; intros lam;
    rewrite !do_while_unfold, body_reflect;
    destruct (body L sinU1 cosU1 sinU2 cosU2 lam) as [v|]; try reflexivity;
    destruct (over_tolerance (lam, v)); try reflexivity.
  destruct n as [|n]; [reflexivity|]. apply IH.
Qed.

Lemma toRad_opp (d : float) : @toRad float (number M) (- d) = - toRad d.
Proof. unfold toRad. js_ops. now rewrite mul_opp_l, div_opp_l. Qed.

(** X7.  Reflecting both points in the equator leaves the result of
    [distVincenty] unchanged, bit for bit, on an engine whose tangent and
    sine are odd and whose cosine is even at the angles of the two
    points. *)
Theorem X7_equator_reflection (lat1 lon1 lat2 lon2 : float) :
  m_tan M (- toRad lat1) = - m_tan M (toRad lat1) ->
  m_tan M (- toRad lat2) = - m_tan M (toRad lat2) ->
  m_sin M (- U lat1) = - m_sin M (U lat1) ->
  m_sin M (- U lat2) = - m_sin M (U lat2) ->
  m_cos M (- U lat1) = m_cos M (U lat1) ->
  m_cos M (- U lat2) = m_cos M (U lat2) ->
  distVincenty (- lat1) lon1 (- lat2) lon2 = distVincenty lat1 lon1 lat2 lon2.
Proof.
  intros Ht1 Ht2 Hs1 Hs2 Hc1 Hc2.
  assert (HU : forall lat, m_tan M (- toRad lat) = - m_tan M (toRad lat) ->
                           @U float (number M) (- lat) = - U lat).
  { intros lat Ht. unfold U. rewrite toRad_opp.
    change (@Math_tan float (number M)) with (m_tan M).
    change (@mul float (number M)) with PrimFloat.mul.
    now rewrite Ht, mul_opp_r. }
  unfold distVincenty. cbv zeta. rewrite (HU lat1 Ht1), (HU lat2 Ht2).
  change (@Math_sin float (number M)) with (m_sin M).
  change (@Math_cos float (number M)) with (m_cos M).
  now rewrite Hs1, Hs2, Hc1, Hc2, do_while_reflect.
Qed.
End NumberFacts.

Section ReferenceInstances.
Import IEEE.
Local Open Scope float_scope.
Local Hint Extern 0 (JSNumber float) => exact (number RefMath.lib) : typeclass_instances.

(** A tenth of a millimetre north of the equator, one degree apart: the
    first pass leaves [lambda] NaN. *)
Lemma X2_nan_step_ends_loop_witness :
  distVincenty 1e-9 0 1e-9 1 = VString "NaN".
Proof.
  match eval vm_compute in (vincenty_pass 1e-9 0 1e-9 1 0) with
  | Some ?p =>
    assert (Hp : vincenty_pass 1e-9 0 1e-9 1 0 = Some p)
      by (vm_compute; reflexivity);
    rewrite (proj2 (X2_nan_step_ends_loop RefMath.lib 1e-9 0 1e-9 1 0 p
                      ltac:(lia) eq_refl Hp ltac:(vm_compute; reflexivity)))
  end.
  vm_compute. reflexivity.
Defined.

Lemma X3_distVincenty_NaN_input_witness :
  distVincenty nan 2.35 51.5 (-0.12) = VString "NaN".
Proof.
  apply (X3_distVincenty_NaN_input RefMath.lib nan 2.35 51.5 (-0.12));
    reflexivity.
Defined.

(** From (0, 0) to (0.5, 179.7) the solver does not converge. *)
Lemma X4_distances_to_moon_poisoned_witness :
  distances_to_moon 0 0 35.5 12.25 41 0.5 179.7 36.75 11.5 40 = [nan; nan].
Proof.
  apply (X4_distances_to_moon_poisoned RefMath.lib);
    [reflexivity | left; vm_compute; reflexivity].
Defined.

Lemma X5_parallaxAngle_symmetric_witness :
  parallaxAngle 35.5 12.25 36.75 11.5 = parallaxAngle 36.75 11.5 35.5 12.25.
Proof.
  apply (X5_parallaxAngle_symmetric RefMath.lib).
  exact (fun u => mul_opp_opp u u).
Defined.

Lemma X6_same_sky_position_no_distance_witness :
  Forall (fun d => is_finite d = false)
         (distances_to_moon 48.85 2.35 35.5 12.25 41
                            51.5 (-0.12) 35.5 12.25 40).
Proof.
  apply (X6_same_sky_position_no_distance RefMath.lib); reflexivity.
Defined.

Lemma X7_equator_reflection_witness :
  distVincenty (- 50.06632) (-5.71475) (- 58.64402) (-3.07009)
  = distVincenty 50.06632 (-5.71475) 58.64402 (-3.07009).
Proof.
  apply (X7_equator_reflection RefMath.lib 50.06632 (-5.71475) 58.64402
                               (-3.07009));
    vm_compute; reflexivity.
Defined.
End ReferenceInstances.

(** ** Exact arithmetic: chord, parallax, triangulation and the pipeline *)

Section ExactGeometry.
Import Exact.
Local Open Scope R_scope.
Variable to_fixed : xreal -> Z -> string.
Variable string_to_number : string -> xreal.
Local Hint Extern 0 (JSNumber xreal) =>
  exact (number to_fixed string_to_number) : typeclass_instances.














End ExactGeometry.



